(** * Assists projection model (assists_model.c)

    A shallow embedding of the projection engine of [assists_model.c] and the
    properties of its specification.

    Numbers.  The C type [double] is modelled by Rocq's primitive [float]:
    IEEE 754 binary64 with round-to-nearest-even, every arithmetic operation
    of the source rounding once to binary64 (no excess precision, no fused
    multiply-add).  The decimal literals of the source denote the nearest
    binary64 value, as they do for a C compiler ([builtin_literals]).  A
    [double] read by [scanf("%lf")] may be any binary64 value, the infinities
    and NaN included.  [int] flags are modelled by [Z]; only their truth value
    ([<> 0]) is ever used.

    Configuration.  The source fixes its weights, league baselines and caps
    as [static const double] globals.  They are gathered in the record
    [Config]; [builtin] holds the values of the source.  Every model function
    takes the configuration as its first argument, so that statements about
    "a weight of 0" or "a baseline of 0" can be made about the very formulas
    of the source. *)

From Stdlib Require Import ZArith Bool String Lia.
From Stdlib Require Import Floats.
From Stdlib Require Import Reals Lra.

Set Warnings "-inexact-float".

Open Scope float_scope.

(** ** Tunable weights and caps *)

Record Config : Set := mkConfig {
  W_BASE_LINE : float;
  W_BASE_SEASON_AVG : float;
  W_HOME_AWAY : float;
  W_GAME_TOTAL : float;
  W_TEAM_TOTAL : float;
  W_DEF_AST_ALLOWED : float;
  W_PACE : float;
  W_RECENT_FORM : float;
  W_MINUTES_TREND : float;
  W_BACK_TO_BACK : float;
  W_POTENTIAL_AST : float;
  LEAGUE_AVG_GAME_TOTAL : float;
  LEAGUE_AVG_TEAM_TOTAL : float;
  LEAGUE_AVG_PACE : float;
  LEAGUE_AVG_AST_ALLOWED : float;
  MULT_MIN : float;
  MULT_MAX : float
}.

(** The constants of the source file. *)
Definition builtin : Config := {|
  W_BASE_LINE := 0.55;
  W_BASE_SEASON_AVG := 0.45;
  W_HOME_AWAY := 0.03;
  W_GAME_TOTAL := 0.05;
  W_TEAM_TOTAL := 0.10;
  W_DEF_AST_ALLOWED := 0.12;
  W_PACE := 0.06;
  W_RECENT_FORM := 0.08;
  W_MINUTES_TREND := 0.10;
  W_BACK_TO_BACK := 0.03;
  W_POTENTIAL_AST := 0.14;
  LEAGUE_AVG_GAME_TOTAL := 229.0;
  LEAGUE_AVG_TEAM_TOTAL := 114.5;
  LEAGUE_AVG_PACE := 99.5;
  LEAGUE_AVG_AST_ALLOWED := 25.0;
  MULT_MIN := 0.70;
  MULT_MAX := 1.40
|}.

(** [x] is a normal positive double within half a unit in the last place of
    the rational [num / den]: the reading a C compiler gives to a decimal
    literal. *)
Definition nearest_double (num den : Z) (x : float) : bool :=
  match Prim2SF x with
  | S754_finite false m e =>
      (Z.pos (digits2_pos m) =? 53)%Z &&
      (if (e <? 0)%Z
       then (2 * Z.abs (den * Z.pos m - num * 2 ^ (- e)) <=? den)%Z
       else (2 * Z.abs (den * Z.pos m * 2 ^ e - num) <=? den * 2 ^ e)%Z)
  | _ => false
  end.

(** ** Helpers *)

(** [x < lo ? lo : (x > hi ? hi : x)] *)
Definition clamp (x lo hi : float) : float :=
  if x <? lo then lo else if hi <? x then hi else x.

(** ** Inputs and outputs *)

Record Inputs : Set := mkInputs {
  player_name : string;
  line_ast : float;
  season_avg_ast : float;
  is_home : Z;
  game_total_ou : float;
  team_total_ou : float;
  opp_ast_allowed : float;
  matchup_pace : float;
  recent_avg_ast : float;
  season_avg_minutes : float;
  expected_minutes : float;
  is_back_to_back : Z;
  last5_potential_ast : float;
  last5_conversion : float
}.

(** The fields of the C struct [Output]; the prefix [o_] keeps them apart
    from the model functions of the same names. *)
Record Output : Set := mkOutput {
  o_base_assists : float;
  o_m_homeaway : float;
  o_m_game_total : float;
  o_m_team_total : float;
  o_m_def_ast : float;
  o_m_pace : float;
  o_m_recent : float;
  o_m_minutes : float;
  o_m_b2b : float;
  o_m_potential : float;
  o_uncapped_multiplier : float;
  o_final_multiplier : float;
  o_projection : float
}.

(** Truth value of a C [int]. *)
Definition truthy (n : Z) : bool := negb (Z.eqb n 0).

(** ** Model functions *)

Definition base_assists (c : Config) (i : Inputs) : float :=
  W_BASE_LINE c * line_ast i + W_BASE_SEASON_AVG c * season_avg_ast i.

Definition m_homeaway (c : Config) (i : Inputs) : float :=
  if truthy (is_home i) then 1.0 + W_HOME_AWAY c else 1.0 - W_HOME_AWAY c.

Definition m_game_total (c : Config) (i : Inputs) : float :=
  let rel := (game_total_ou i - LEAGUE_AVG_GAME_TOTAL c) / LEAGUE_AVG_GAME_TOTAL c in
  1.0 + rel * W_GAME_TOTAL c.

Definition m_team_total (c : Config) (i : Inputs) : float :=
  let rel := (team_total_ou i - LEAGUE_AVG_TEAM_TOTAL c) / LEAGUE_AVG_TEAM_TOTAL c in
  1.0 + rel * W_TEAM_TOTAL c.

Definition m_def_ast (c : Config) (i : Inputs) : float :=
  if LEAGUE_AVG_AST_ALLOWED c <=? 0.0 then 1.0 else
  let rel := (opp_ast_allowed i - LEAGUE_AVG_AST_ALLOWED c) / LEAGUE_AVG_AST_ALLOWED c in
  1.0 + rel * W_DEF_AST_ALLOWED c.

Definition m_pace (c : Config) (i : Inputs) : float :=
  if LEAGUE_AVG_PACE c <=? 0.0 then 1.0 else
  let rel := (matchup_pace i - LEAGUE_AVG_PACE c) / LEAGUE_AVG_PACE c in
  1.0 + rel * W_PACE c.

Definition m_recent (c : Config) (i : Inputs) : float :=
  if (W_RECENT_FORM c =? 0.0) || (season_avg_ast i <=? 0.0) then 1.0 else
  let rel := (recent_avg_ast i - season_avg_ast i) / season_avg_ast i in
  1.0 + rel * W_RECENT_FORM c.

Definition m_minutes (c : Config) (i : Inputs) : float :=
  if (W_MINUTES_TREND c =? 0.0) || (season_avg_minutes i <=? 0.0) then 1.0 else
  let rel := (expected_minutes i - season_avg_minutes i) / season_avg_minutes i in
  1.0 + rel * W_MINUTES_TREND c.

Definition m_b2b (c : Config) (i : Inputs) : float :=
  if truthy (is_back_to_back i) && (0.0 <? W_BACK_TO_BACK c)
  then 1.0 - W_BACK_TO_BACK c else 1.0.

Definition m_potential_assists (c : Config) (i : Inputs) : float :=
  if (W_POTENTIAL_AST c =? 0.0) || (season_avg_ast i <=? 0.0) then 1.0 else
  let expected_actual := last5_potential_ast i * last5_conversion i in
  let rel := (expected_actual - season_avg_ast i) / season_avg_ast i in
  1.0 + rel * W_POTENTIAL_AST c.

Definition project (c : Config) (i : Inputs) : Output :=
  let base := base_assists c i in
  let ha := m_homeaway c i in
  let gt := m_game_total c i in
  let tt := m_team_total c i in
  let da := m_def_ast c i in
  let pa := m_pace c i in
  let re := m_recent c i in
  let mi := m_minutes c i in
  let bb := m_b2b c i in
  let po := m_potential_assists c i in
  let uncapped := ha * gt * tt * da * pa * re * mi * bb * po in
  let final := clamp uncapped (MULT_MIN c) (MULT_MAX c) in
  {| o_base_assists := base;
     o_m_homeaway := ha;
     o_m_game_total := gt;
     o_m_team_total := tt;
     o_m_def_ast := da;
     o_m_pace := pa;
     o_m_recent := re;
     o_m_minutes := mi;
     o_m_b2b := bb;
     o_m_potential := po;
     o_uncapped_multiplier := uncapped;
     o_final_multiplier := final;
     o_projection := base * final |}.

(** ** Record updates

    The C program fills an [Inputs] struct field by field; these functions
    replace one field and keep the others. *)

Definition with_player_name (n : string) (i : Inputs) : Inputs :=
  mkInputs n (line_ast i) (season_avg_ast i) (is_home i) (game_total_ou i)
    (team_total_ou i) (opp_ast_allowed i) (matchup_pace i) (recent_avg_ast i)
    (season_avg_minutes i) (expected_minutes i) (is_back_to_back i)
    (last5_potential_ast i) (last5_conversion i).

Definition with_is_home (h : Z) (i : Inputs) : Inputs :=
  mkInputs (player_name i) (line_ast i) (season_avg_ast i) h (game_total_ou i)
    (team_total_ou i) (opp_ast_allowed i) (matchup_pace i) (recent_avg_ast i)
    (season_avg_minutes i) (expected_minutes i) (is_back_to_back i)
    (last5_potential_ast i) (last5_conversion i).

Definition with_season_avg_ast (s : float) (i : Inputs) : Inputs :=
  mkInputs (player_name i) (line_ast i) s (is_home i) (game_total_ou i)
    (team_total_ou i) (opp_ast_allowed i) (matchup_pace i) (recent_avg_ast i)
    (season_avg_minutes i) (expected_minutes i) (is_back_to_back i)
    (last5_potential_ast i) (last5_conversion i).

Definition with_game_total_ou (x : float) (i : Inputs) : Inputs :=
  mkInputs (player_name i) (line_ast i) (season_avg_ast i) (is_home i) x
    (team_total_ou i) (opp_ast_allowed i) (matchup_pace i) (recent_avg_ast i)
    (season_avg_minutes i) (expected_minutes i) (is_back_to_back i)
    (last5_potential_ast i) (last5_conversion i).

Definition with_opp_ast_allowed (x : float) (i : Inputs) : Inputs :=
  mkInputs (player_name i) (line_ast i) (season_avg_ast i) (is_home i)
    (game_total_ou i) (team_total_ou i) x (matchup_pace i) (recent_avg_ast i)
    (season_avg_minutes i) (expected_minutes i) (is_back_to_back i)
    (last5_potential_ast i) (last5_conversion i).

Definition with_team_total_ou (x : float) (i : Inputs) : Inputs :=
  mkInputs (player_name i) (line_ast i) (season_avg_ast i) (is_home i)
    (game_total_ou i) x (opp_ast_allowed i) (matchup_pace i) (recent_avg_ast i)
    (season_avg_minutes i) (expected_minutes i) (is_back_to_back i)
    (last5_potential_ast i) (last5_conversion i).

(** A configuration with one constant edited. *)
Definition with_W_GAME_TOTAL (w : float) (c : Config) : Config :=
  mkConfig (W_BASE_LINE c) (W_BASE_SEASON_AVG c) (W_HOME_AWAY c) w
    (W_TEAM_TOTAL c) (W_DEF_AST_ALLOWED c) (W_PACE c) (W_RECENT_FORM c)
    (W_MINUTES_TREND c) (W_BACK_TO_BACK c) (W_POTENTIAL_AST c)
    (LEAGUE_AVG_GAME_TOTAL c) (LEAGUE_AVG_TEAM_TOTAL c) (LEAGUE_AVG_PACE c)
    (LEAGUE_AVG_AST_ALLOWED c) (MULT_MIN c) (MULT_MAX c).

Definition with_LEAGUE_AVG_GAME_TOTAL (b : float) (c : Config) : Config :=
  mkConfig (W_BASE_LINE c) (W_BASE_SEASON_AVG c) (W_HOME_AWAY c) (W_GAME_TOTAL c)
    (W_TEAM_TOTAL c) (W_DEF_AST_ALLOWED c) (W_PACE c) (W_RECENT_FORM c)
    (W_MINUTES_TREND c) (W_BACK_TO_BACK c) (W_POTENTIAL_AST c)
    b (LEAGUE_AVG_TEAM_TOTAL c) (LEAGUE_AVG_PACE c)
    (LEAGUE_AVG_AST_ALLOWED c) (MULT_MIN c) (MULT_MAX c).

Definition with_LEAGUE_AVG_TEAM_TOTAL (b : float) (c : Config) : Config :=
  mkConfig (W_BASE_LINE c) (W_BASE_SEASON_AVG c) (W_HOME_AWAY c) (W_GAME_TOTAL c)
    (W_TEAM_TOTAL c) (W_DEF_AST_ALLOWED c) (W_PACE c) (W_RECENT_FORM c)
    (W_MINUTES_TREND c) (W_BACK_TO_BACK c) (W_POTENTIAL_AST c)
    (LEAGUE_AVG_GAME_TOTAL c) b (LEAGUE_AVG_PACE c)
    (LEAGUE_AVG_AST_ALLOWED c) (MULT_MIN c) (MULT_MAX c).

Definition with_LEAGUE_AVG_PACE (b : float) (c : Config) : Config :=
  mkConfig (W_BASE_LINE c) (W_BASE_SEASON_AVG c) (W_HOME_AWAY c) (W_GAME_TOTAL c)
    (W_TEAM_TOTAL c) (W_DEF_AST_ALLOWED c) (W_PACE c) (W_RECENT_FORM c)
    (W_MINUTES_TREND c) (W_BACK_TO_BACK c) (W_POTENTIAL_AST c)
    (LEAGUE_AVG_GAME_TOTAL c) (LEAGUE_AVG_TEAM_TOTAL c) b
    (LEAGUE_AVG_AST_ALLOWED c) (MULT_MIN c) (MULT_MAX c).

Definition with_LEAGUE_AVG_AST_ALLOWED (b : float) (c : Config) : Config :=
  mkConfig (W_BASE_LINE c) (W_BASE_SEASON_AVG c) (W_HOME_AWAY c) (W_GAME_TOTAL c)
    (W_TEAM_TOTAL c) (W_DEF_AST_ALLOWED c) (W_PACE c) (W_RECENT_FORM c)
    (W_MINUTES_TREND c) (W_BACK_TO_BACK c) (W_POTENTIAL_AST c)
    (LEAGUE_AVG_GAME_TOTAL c) (LEAGUE_AVG_TEAM_TOTAL c) (LEAGUE_AVG_PACE c)
    b (MULT_MIN c) (MULT_MAX c).

(** ** Vocabulary of the specification *)

(** Two input records with the same numeric and boolean fields (the player
    names may differ). *)
Definition same_numeric (i j : Inputs) : Prop :=
  line_ast i = line_ast j /\ season_avg_ast i = season_avg_ast j /\
  is_home i = is_home j /\ game_total_ou i = game_total_ou j /\
  team_total_ou i = team_total_ou j /\ opp_ast_allowed i = opp_ast_allowed j /\
  matchup_pace i = matchup_pace j /\ recent_avg_ast i = recent_avg_ast j /\
  season_avg_minutes i = season_avg_minutes j /\
  expected_minutes i = expected_minutes j /\
  is_back_to_back i = is_back_to_back j /\
  last5_potential_ast i = last5_potential_ast j /\
  last5_conversion i = last5_conversion j.

(** "Every contextual input equals its neutral value": the comparisons are
    those of C ([==] on doubles). *)
Definition neutral_context (c : Config) (i : Inputs) : Prop :=
  (game_total_ou i =? LEAGUE_AVG_GAME_TOTAL c) = true /\
  (team_total_ou i =? LEAGUE_AVG_TEAM_TOTAL c) = true /\
  (opp_ast_allowed i =? LEAGUE_AVG_AST_ALLOWED c) = true /\
  (matchup_pace i =? LEAGUE_AVG_PACE c) = true /\
  (recent_avg_ast i =? season_avg_ast i) = true /\
  (expected_minutes i =? season_avg_minutes i) = true /\
  truthy (is_back_to_back i) = false /\
  (last5_potential_ast i * last5_conversion i =? season_avg_ast i) = true.

(** Every numeric field is a finite number (neither an infinity nor a NaN). *)
Definition finite_inputs (i : Inputs) : bool :=
  is_finite (line_ast i) && is_finite (season_avg_ast i) &&
  is_finite (game_total_ou i) && is_finite (team_total_ou i) &&
  is_finite (opp_ast_allowed i) && is_finite (matchup_pace i) &&
  is_finite (recent_avg_ast i) && is_finite (season_avg_minutes i) &&
  is_finite (expected_minutes i) && is_finite (last5_potential_ast i) &&
  is_finite (last5_conversion i).

(** [x] lies in the closed interval [[lo, hi]]. *)
Definition within (lo hi x : float) : bool := (lo <=? x) && (x <=? hi).

(** [x] is [y] up to the absolute tolerance [tol]. *)
Definition approx (tol x y : float) : bool := abs (x - y) <=? tol.

(** The nine factor fields of an output record. *)
Definition factors (o : Output) : list float :=
  (o_m_homeaway o :: o_m_game_total o :: o_m_team_total o :: o_m_def_ast o ::
   o_m_pace o :: o_m_recent o :: o_m_minutes o :: o_m_b2b o ::
   o_m_potential o :: nil)%list.

(** The eight factor fields other than the home/away one. *)
Definition factors_but_homeaway (o : Output) : list float :=
  List.tl (factors o).

(** ** Sample inputs *)

(** The end-to-end example of the specification. *)
Definition example_home : Inputs := {|
  player_name := "example";
  line_ast := 5.0; season_avg_ast := 5.0; is_home := 1;
  game_total_ou := 229.0; team_total_ou := 114.5; opp_ast_allowed := 25.0;
  matchup_pace := 99.5; recent_avg_ast := 5.0;
  season_avg_minutes := 32.0; expected_minutes := 32.0; is_back_to_back := 0;
  last5_potential_ast := 9.0; last5_conversion := 0.5556 |}.

(** An input whose every contextual field is exactly neutral
    ([10.0 * 0.5 == 5.0]). *)
Definition exactly_neutral : Inputs := {|
  player_name := "neutral";
  line_ast := 5.0; season_avg_ast := 5.0; is_home := 1;
  game_total_ou := 229.0; team_total_ou := 114.5; opp_ast_allowed := 25.0;
  matchup_pace := 99.5; recent_avg_ast := 5.0;
  season_avg_minutes := 32.0; expected_minutes := 32.0; is_back_to_back := 0;
  last5_potential_ast := 10.0; last5_conversion := 0.5 |}.

(** Finite inputs for which one factor is exactly 0 and another overflows. *)
Definition extreme_finite : Inputs := {|
  player_name := "extreme";
  line_ast := 5.0; season_avg_ast := 1.0; is_home := 1;
  game_total_ou := 229.0; team_total_ou := 114.5; opp_ast_allowed := 25.0;
  matchup_pace := 99.5; recent_avg_ast := -11.5;
  season_avg_minutes := 1e-300; expected_minutes := 1e308; is_back_to_back := 0;
  last5_potential_ast := 2.0; last5_conversion := 0.5 |}.

(** A player with no assists this season and a changed minutes load. *)
Definition no_assists_more_minutes : Inputs := {|
  player_name := "rookie";
  line_ast := 0.5; season_avg_ast := 0.0; is_home := 0;
  game_total_ou := 229.0; team_total_ou := 114.5; opp_ast_allowed := 25.0;
  matchup_pace := 99.5; recent_avg_ast := 2.0;
  season_avg_minutes := 10.0; expected_minutes := 20.0; is_back_to_back := 0;
  last5_potential_ast := 4.0; last5_conversion := 0.5 |}.

(** The outcome the specification announces for its end-to-end example, read
    with the absolute tolerance [tol]: base value 5.0, every factor about 1.0
    and a projection of about 5.0. *)
Definition announced_example (tol : float) (o : Output) : bool :=
  (o_base_assists o =? 5.0) &&
  List.forallb (fun m => approx tol m 1.0) (factors o) &&
  approx tol (o_projection o) 5.0.

(** ** Real-number reading of binary64

    The monotonicity and range properties below are proved by reading each
    [spec_float] as a real number and each operation as a rounding of the
    exact result. *)

Local Open Scope R_scope.

(** [2^e] for an integer exponent. *)
Definition bpow (e : Z) : R := powerRZ 2 e.

(** The real [m * 2^e]. *)
Definition F2R (m e : Z) : R := IZR m * bpow e.

(** The real number a [spec_float] stands for; the infinities are placed at
    [+-2^emax], just beyond the largest finite number, so that the order of
    the non-NaN values is the order of these reals. *)
Definition SF2R (x : spec_float) : R :=
  match x with
  | S754_zero _ => 0
  | S754_nan => 0
  | S754_infinity s => if s then - bpow emax else bpow emax
  | S754_finite s m e => if s then - F2R (Z.pos m) e else F2R (Z.pos m) e
  end.

(** Not a number. *)
Definition SFis_nan (x : spec_float) : bool :=
  match x with S754_nan => true | _ => false end.

(** [v] lies in the slice [[m * 2^e, (m+1) * 2^e)] at the place [l] says:
    on its lower end, below, at or above its middle. *)
Definition located (v : R) (m e : Z) (l : location) : Prop :=
  match l with
  | loc_Exact => v = F2R m e
  | loc_Inexact Lt => F2R m e < v < F2R m e + bpow e / 2
  | loc_Inexact Eq => v = F2R m e + bpow e / 2
  | loc_Inexact Gt => F2R m e + bpow e / 2 < v < F2R m e + bpow e
  end.

(** [F] is a rounding to nearest of the positive real [v]: a nearest multiple
    of [2^E], where [E] is the exponent binary64 gives to the binade of [v]
    ([emin] in the subnormal range), replaced by [2^emax] on overflow. *)
Definition rnd_pos (v F : R) : Prop :=
  exists E n : Z,
    v - bpow E / 2 <= F2R n E <= v + bpow E / 2 /\
    F = Rmin (F2R n E) (bpow emax) /\
    ((E = emin /\ v < bpow (emin + prec)) \/
     ((emin < E)%Z /\ bpow (E + prec - 1) <= v < bpow (E + prec))).

(** The same for a real of any sign. *)
Definition rnd (v F : R) : Prop :=
  (v = 0 /\ F = 0) \/ (0 < v /\ rnd_pos v F) \/ (v < 0 /\ rnd_pos (- v) (- F)).

(** An operation [op] on [spec_float] rounds the real function [g]: it keeps
    the infinities, ignores the sign of a zero argument, returns no NaN on a
    number, and on a finite argument rounds the exact result to nearest. *)
Definition rounds (g : R -> R) (op : spec_float -> spec_float) : Prop :=
  (forall s, op (S754_infinity s) = S754_infinity s) /\
  (forall s, SF2R (op (S754_zero s)) = SF2R (op (S754_zero false))) /\
  (forall x, SFis_nan x = false -> valid_binary x = true ->
     SFis_nan (op x) = false) /\
  (forall x, valid_binary x = true ->
     match x with
     | S754_zero _ | S754_finite _ _ _ => rnd (g (SF2R x)) (SF2R (op x))
     | _ => True
     end).

(** The largest finite double. *)
Definition max_double : float := 0x1.fffffffffffffp+1023%float.

Local Close Scope R_scope.

(** The last step of [binary_round_aux]: renormalise the rounded mantissa
    [n] at exponent [E] and detect overflow. *)
Definition round_finish (s : bool) (n E : Z) : spec_float :=
  let '(mrs, e) := shr_fexp prec emax n E loc_Exact in
  match shr_m mrs with
  | Z0 => S754_zero s
  | Zpos m => if (e <=? emax - prec)%Z then S754_finite s m e else S754_infinity s
  | Zneg _ => S754_nan
  end.

(** ** Further record updates *)

Definition with_line_ast (x : float) (i : Inputs) : Inputs :=
  mkInputs (player_name i) x (season_avg_ast i) (is_home i) (game_total_ou i)
    (team_total_ou i) (opp_ast_allowed i) (matchup_pace i) (recent_avg_ast i)
    (season_avg_minutes i) (expected_minutes i) (is_back_to_back i)
    (last5_potential_ast i) (last5_conversion i).

Definition with_matchup_pace (x : float) (i : Inputs) : Inputs :=
  mkInputs (player_name i) (line_ast i) (season_avg_ast i) (is_home i)
    (game_total_ou i) (team_total_ou i) (opp_ast_allowed i) x (recent_avg_ast i)
    (season_avg_minutes i) (expected_minutes i) (is_back_to_back i)
    (last5_potential_ast i) (last5_conversion i).

Definition with_recent_avg_ast (x : float) (i : Inputs) : Inputs :=
  mkInputs (player_name i) (line_ast i) (season_avg_ast i) (is_home i)
    (game_total_ou i) (team_total_ou i) (opp_ast_allowed i) (matchup_pace i) x
    (season_avg_minutes i) (expected_minutes i) (is_back_to_back i)
    (last5_potential_ast i) (last5_conversion i).

Definition with_expected_minutes (x : float) (i : Inputs) : Inputs :=
  mkInputs (player_name i) (line_ast i) (season_avg_ast i) (is_home i)
    (game_total_ou i) (team_total_ou i) (opp_ast_allowed i) (matchup_pace i)
    (recent_avg_ast i) (season_avg_minutes i) x (is_back_to_back i)
    (last5_potential_ast i) (last5_conversion i).

Definition with_is_back_to_back (b : Z) (i : Inputs) : Inputs :=
  mkInputs (player_name i) (line_ast i) (season_avg_ast i) (is_home i)
    (game_total_ou i) (team_total_ou i) (opp_ast_allowed i) (matchup_pace i)
    (recent_avg_ast i) (season_avg_minutes i) (expected_minutes i) b
    (last5_potential_ast i) (last5_conversion i).

Definition with_last5_potential_ast (x : float) (i : Inputs) : Inputs :=
  mkInputs (player_name i) (line_ast i) (season_avg_ast i) (is_home i)
    (game_total_ou i) (team_total_ou i) (opp_ast_allowed i) (matchup_pace i)
    (recent_avg_ast i) (season_avg_minutes i) (expected_minutes i)
    (is_back_to_back i) x (last5_conversion i).

Definition with_last5_conversion (x : float) (i : Inputs) : Inputs :=
  mkInputs (player_name i) (line_ast i) (season_avg_ast i) (is_home i)
    (game_total_ou i) (team_total_ou i) (opp_ast_allowed i) (matchup_pace i)
    (recent_avg_ast i) (season_avg_minutes i) (expected_minutes i)
    (is_back_to_back i) (last5_potential_ast i) x.

Definition with_W_TEAM_TOTAL (w : float) (c : Config) : Config :=
  mkConfig (W_BASE_LINE c) (W_BASE_SEASON_AVG c) (W_HOME_AWAY c) (W_GAME_TOTAL c)
    w (W_DEF_AST_ALLOWED c) (W_PACE c) (W_RECENT_FORM c)
    (W_MINUTES_TREND c) (W_BACK_TO_BACK c) (W_POTENTIAL_AST c)
    (LEAGUE_AVG_GAME_TOTAL c) (LEAGUE_AVG_TEAM_TOTAL c) (LEAGUE_AVG_PACE c)
    (LEAGUE_AVG_AST_ALLOWED c) (MULT_MIN c) (MULT_MAX c).

Definition with_W_DEF_AST_ALLOWED (w : float) (c : Config) : Config :=
  mkConfig (W_BASE_LINE c) (W_BASE_SEASON_AVG c) (W_HOME_AWAY c) (W_GAME_TOTAL c)
    (W_TEAM_TOTAL c) w (W_PACE c) (W_RECENT_FORM c)
    (W_MINUTES_TREND c) (W_BACK_TO_BACK c) (W_POTENTIAL_AST c)
    (LEAGUE_AVG_GAME_TOTAL c) (LEAGUE_AVG_TEAM_TOTAL c) (LEAGUE_AVG_PACE c)
    (LEAGUE_AVG_AST_ALLOWED c) (MULT_MIN c) (MULT_MAX c).

Definition with_W_PACE (w : float) (c : Config) : Config :=
  mkConfig (W_BASE_LINE c) (W_BASE_SEASON_AVG c) (W_HOME_AWAY c) (W_GAME_TOTAL c)
    (W_TEAM_TOTAL c) (W_DEF_AST_ALLOWED c) w (W_RECENT_FORM c)
    (W_MINUTES_TREND c) (W_BACK_TO_BACK c) (W_POTENTIAL_AST c)
    (LEAGUE_AVG_GAME_TOTAL c) (LEAGUE_AVG_TEAM_TOTAL c) (LEAGUE_AVG_PACE c)
    (LEAGUE_AVG_AST_ALLOWED c) (MULT_MIN c) (MULT_MAX c).

Definition with_W_RECENT_FORM (w : float) (c : Config) : Config :=
  mkConfig (W_BASE_LINE c) (W_BASE_SEASON_AVG c) (W_HOME_AWAY c) (W_GAME_TOTAL c)
    (W_TEAM_TOTAL c) (W_DEF_AST_ALLOWED c) (W_PACE c) w
    (W_MINUTES_TREND c) (W_BACK_TO_BACK c) (W_POTENTIAL_AST c)
    (LEAGUE_AVG_GAME_TOTAL c) (LEAGUE_AVG_TEAM_TOTAL c) (LEAGUE_AVG_PACE c)
    (LEAGUE_AVG_AST_ALLOWED c) (MULT_MIN c) (MULT_MAX c).

Definition with_season_avg_minutes (x : float) (i : Inputs) : Inputs :=
  mkInputs (player_name i) (line_ast i) (season_avg_ast i) (is_home i)
    (game_total_ou i) (team_total_ou i) (opp_ast_allowed i) (matchup_pace i)
    (recent_avg_ast i) x (expected_minutes i) (is_back_to_back i)
    (last5_potential_ast i) (last5_conversion i).

(** The real number a double stands for (0 for NaN, [+-2^emax] for the
    infinities). *)
Definition FR (x : float) : R := SF2R (Prim2SF x).

(** Every numeric field is a finite number and is not negative, as
    points, minutes, rates and possessions are. *)
Definition nonnegative_inputs (i : Inputs) : bool :=
  finite_inputs i &&
  (0 <=? line_ast i) && (0 <=? season_avg_ast i) &&
  (0 <=? game_total_ou i) && (0 <=? team_total_ou i) &&
  (0 <=? opp_ast_allowed i) && (0 <=? matchup_pace i) &&
  (0 <=? recent_avg_ast i) && (0 <=? season_avg_minutes i) &&
  (0 <=? expected_minutes i) && (0 <=? last5_potential_ast i) &&
  (0 <=? last5_conversion i).

(** ** The player name read by [main]

    [main] reads the name with [fgets] into the 128-byte [namebuf] and then
    walks the buffer from index 0: it stops at the terminating NUL, or
    replaces the first newline by a NUL and stops.  The buffer is a list of
    characters; the recursion follows the index of the loop. *)

Definition NUL : Ascii.ascii := Ascii.ascii_of_nat 0.
Definition newline : Ascii.ascii := Ascii.ascii_of_nat 10.

(** [for (i = 0; namebuf[i]; ++i) if (namebuf[i] == '\n') { namebuf[i] = 0; break; }] *)
Fixpoint strip_newline (buf : list Ascii.ascii) : list Ascii.ascii :=
  match buf with
  | nil => nil
  | cons ch rest =>
      if Ascii.eqb ch NUL then buf
      else if Ascii.eqb ch newline then cons NUL rest
      else cons ch (strip_newline rest)
  end.

(** The C string a buffer holds: the characters before the first NUL. *)
Fixpoint cstring (buf : list Ascii.ascii) : list Ascii.ascii :=
  match buf with
  | nil => nil
  | cons ch rest => if Ascii.eqb ch NUL then nil else cons ch (cstring rest)
  end.

(** The character [ch] does not occur in [l]. *)
Definition lacks (ch : Ascii.ascii) (l : list Ascii.ascii) : bool :=
  List.forallb (fun x => negb (Ascii.eqb x ch)) l.

(** * Rounding *)

Section Rounding.
Local Open Scope R_scope.

(** ** Powers of two *)

Lemma bpow_gt_0 e : 0 < bpow e.
Proof. apply powerRZ_lt; lra. Qed.

Lemma bpow_add e1 e2 : bpow (e1 + e2) = bpow e1 * bpow e2.
Proof. apply powerRZ_add; lra. Qed.

Lemma bpow_0 : bpow 0 = 1.
Proof. reflexivity. Qed.

Lemma bpow_1 : bpow 1 = 2.
Proof. exact (powerRZ_1 2). Qed.

Lemma bpow_succ e : bpow (e + 1) = 2 * bpow e.
Proof. rewrite bpow_add, bpow_1; lra. Qed.

Lemma bpow_IZR (k : Z) : (0 <= k)%Z -> bpow k = IZR (2 ^ k).
Proof.
  intros Hk. pattern k. apply natlike_ind; [reflexivity | | exact Hk].
  intros x Hx IH. unfold Z.succ.
  rewrite bpow_succ, IH, Z.pow_add_r, mult_IZR by lia.
  change (2 ^ 1)%Z with 2%Z. lra.
Qed.

Lemma bpow_ge_1 (k : Z) : (0 <= k)%Z -> 1 <= bpow k.
Proof.
  intros Hk. rewrite bpow_IZR by exact Hk. apply IZR_le.
  assert (0 < 2 ^ k)%Z by (apply Z.pow_pos_nonneg; lia). lia.
Qed.

Lemma bpow_le e1 e2 : (e1 <= e2)%Z -> bpow e1 <= bpow e2.
Proof.
  intros H. replace e2 with (e1 + (e2 - e1))%Z by lia. rewrite bpow_add.
  pose proof (bpow_gt_0 e1). pose proof (bpow_ge_1 (e2 - e1) ltac:(lia)). nra.
Qed.

Lemma bpow_lt e1 e2 : (e1 < e2)%Z -> bpow e1 < bpow e2.
Proof.
  intros H. apply Rlt_le_trans with (bpow (e1 + 1)).
  - rewrite bpow_succ. pose proof (bpow_gt_0 e1). lra.
  - apply bpow_le; lia.
Qed.

Lemma bpow_lt_inv e1 e2 : bpow e1 < bpow e2 -> (e1 < e2)%Z.
Proof.
  intros H. destruct (Z_lt_le_dec e1 e2) as [L|L]; [exact L|].
  apply bpow_le in L. lra.
Qed.

(** ** Multiples of a power of two *)

Lemma F2R_shift m e k : (0 <= k)%Z -> F2R (m * 2 ^ k) e = F2R m (e + k).
Proof.
  intros Hk. unfold F2R. rewrite mult_IZR, <- bpow_IZR, bpow_add by exact Hk.
  ring.
Qed.

Lemma F2R_le m1 m2 e : (m1 <= m2)%Z -> F2R m1 e <= F2R m2 e.
Proof.
  intros H. unfold F2R. apply IZR_le in H. pose proof (bpow_gt_0 e). nra.
Qed.

Lemma F2R_lt_inv m1 m2 e : F2R m1 e < F2R m2 e -> (m1 < m2)%Z.
Proof.
  intros H. destruct (Z_lt_le_dec m1 m2) as [L|L]; [exact L|].
  apply (F2R_le _ _ e) in L. lra.
Qed.

Lemma F2R_succ m e : F2R (m + 1) e = F2R m e + bpow e.
Proof. unfold F2R. rewrite plus_IZR. ring. Qed.

Lemma F2R_bpow k e : (0 <= k)%Z -> F2R (2 ^ k) e = bpow (e + k).
Proof.
  intros Hk. unfold F2R. rewrite <- bpow_IZR, bpow_add by exact Hk. ring.
Qed.

(** ** Number of binary digits *)

Lemma digits2_pos_bounds (p : positive) :
  (2 ^ (Z.pos (digits2_pos p) - 1) <= Z.pos p < 2 ^ Z.pos (digits2_pos p))%Z.
Proof.
  induction p as [p IH|p IH|]; cbn [digits2_pos].
  - rewrite Pos2Z.inj_succ.
    replace (Z.succ (Z.pos (digits2_pos p)) - 1)%Z
      with (Z.succ (Z.pos (digits2_pos p) - 1)) by lia.
    rewrite !Z.pow_succ_r by lia. lia.
  - rewrite Pos2Z.inj_succ.
    replace (Z.succ (Z.pos (digits2_pos p)) - 1)%Z
      with (Z.succ (Z.pos (digits2_pos p) - 1)) by lia.
    rewrite !Z.pow_succ_r by lia. lia.
  - cbn. lia.
Qed.

Lemma Zdigits2_bounds (m : Z) :
  (0 < m)%Z -> (2 ^ (Zdigits2 m - 1) <= m < 2 ^ Zdigits2 m)%Z.
Proof.
  destruct m as [|p|p]; try lia. intros _. exact (digits2_pos_bounds p).
Qed.

Lemma Zdigits2_nonneg (m : Z) : (0 <= Zdigits2 m)%Z.
Proof. destruct m; cbn; lia. Qed.

Lemma Zdigits2_ge (m k : Z) : (0 <= k)%Z -> (2 ^ k <= m)%Z -> (k < Zdigits2 m)%Z.
Proof.
  intros Hk H. assert (0 < m)%Z by (pose proof (Z.pow_pos_nonneg 2 k); lia).
  destruct (Zdigits2_bounds m H0) as [_ Hu].
  apply (Z.pow_lt_mono_r_iff 2); try lia. pose proof (Zdigits2_nonneg m). lia.
Qed.

Lemma Zdigits2_lt (m k : Z) : (0 <= k)%Z -> (0 <= m < 2 ^ k)%Z -> (Zdigits2 m <= k)%Z.
Proof.
  intros Hk [H0 H]. destruct (Z.eq_dec m 0) as [->|Hm]; [cbn; lia|].
  destruct (Zdigits2_bounds m ltac:(lia)) as [Hl _].
  assert (2 ^ (Zdigits2 m - 1) < 2 ^ k)%Z by lia.
  apply Z.pow_lt_mono_r_iff in H1; lia.
Qed.

(** ** Rounding to nearest is monotone *)

Lemma nearest_below_multiple n k E v :
  v - bpow E / 2 <= F2R n E <= v + bpow E / 2 -> v <= F2R k E -> F2R n E <= F2R k E.
Proof.
  intros Hn Hv. apply F2R_le.
  destruct (Z_lt_le_dec k n) as [L|L]; [exfalso | exact L].
  assert (H : F2R (k + 1) E <= F2R n E) by (apply F2R_le; lia).
  rewrite F2R_succ in H. pose proof (bpow_gt_0 E).
  lra.
Qed.

Lemma nearest_above_multiple n k E v :
  v - bpow E / 2 <= F2R n E <= v + bpow E / 2 -> F2R k E <= v -> F2R k E <= F2R n E.
Proof.
  intros Hn Hv. apply F2R_le.
  destruct (Z_lt_le_dec n k) as [L|L]; [exfalso | exact L].
  assert (H : F2R (n + 1) E <= F2R k E) by (apply F2R_le; lia).
  rewrite F2R_succ in H. pose proof (bpow_gt_0 E).
  lra.
Qed.

Lemma nearest_same_grid n1 n2 E v1 v2 :
  v1 - bpow E / 2 <= F2R n1 E <= v1 + bpow E / 2 ->
  v2 - bpow E / 2 <= F2R n2 E <= v2 + bpow E / 2 ->
  v1 < v2 -> F2R n1 E <= F2R n2 E.
Proof.
  intros H1 H2 Hv. apply F2R_le.
  assert (H : F2R n1 E < F2R (n2 + 1) E).
  { rewrite F2R_succ. lra. }
  apply F2R_lt_inv in H. lia.
Qed.

Lemma rnd_pos_nonneg v F : 0 < v -> rnd_pos v F -> 0 <= F.
Proof.
  intros Hv (E & n & Hn & -> & _).
  apply Rmin_glb; [|pose proof (bpow_gt_0 emax); lra].
  replace 0 with (F2R 0 E) by (unfold F2R; lra).
  apply nearest_above_multiple with v; [exact Hn|].
  unfold F2R; lra.
Qed.

Lemma rnd_pos_mono v1 v2 F1 F2 :
  v1 < v2 -> rnd_pos v1 F1 -> rnd_pos v2 F2 -> F1 <= F2.
Proof.
  intros Hv (E1 & n1 & Hn1 & -> & B1) (E2 & n2 & Hn2 & -> & B2).
  apply Rle_min_compat_r.
  assert (Hup1 : v1 < bpow (E1 + prec)).
  { destruct B1 as [[-> H]|[_ H]]; [exact H | apply H]. }
  assert (Hmin1 : (emin <= E1)%Z) by (destruct B1 as [[-> _]|[H _]]; lia).
  assert (Hmin2 : (emin <= E2)%Z) by (destruct B2 as [[-> _]|[H _]]; lia).
  destruct (Z.lt_trichotomy E1 E2) as [L|[->|L]].
  - (* the binade of v2 starts at a point of both grids *)
    destruct B2 as [[-> _]|[_ [Hlo _]]]; [lia|].
    apply Rle_trans with (bpow (E2 + prec - 1)).
    + replace (E2 + prec - 1)%Z with (E1 + (E2 + prec - 1 - E1))%Z by lia.
      rewrite <- F2R_bpow by (unfold prec; lia).
      apply nearest_below_multiple with v1; [exact Hn1|].
      rewrite F2R_bpow by (unfold prec; lia).
      apply Rlt_le, Rlt_le_trans with (1 := Hup1). apply bpow_le; lia.
    + replace (E2 + prec - 1)%Z with (E2 + (prec - 1))%Z by lia.
      rewrite <- F2R_bpow by (unfold prec; lia).
      apply nearest_above_multiple with v2; [exact Hn2|].
      rewrite F2R_bpow by (unfold prec; lia).
      replace (E2 + (prec - 1))%Z with (E2 + prec - 1)%Z by lia. exact Hlo.
  - exact (nearest_same_grid _ _ _ _ _ Hn1 Hn2 Hv).
  - exfalso. destruct B1 as [[-> _]|[_ [Hlo _]]]; [lia|].
    assert (v2 < bpow (E2 + prec)).
    { destruct B2 as [[-> H]|[_ H]]; [exact H | apply H]. }
    assert (bpow (E2 + prec) <= bpow (E1 + prec - 1)) by (apply bpow_le; lia).
    lra.
Qed.

Lemma rnd_sign v F : rnd v F -> (0 <= v -> 0 <= F) /\ (v <= 0 -> F <= 0).
Proof.
  intros [[-> ->]|[[P H]|[N H]]].
  - lra.
  - apply rnd_pos_nonneg in H; lra.
  - apply rnd_pos_nonneg in H; lra.
Qed.

Lemma rnd_is_pos v F : 0 < v -> rnd v F -> rnd_pos v F.
Proof. intros Hv [[-> _]|[[_ H]|[N _]]]; [lra | exact H | lra]. Qed.

Lemma rnd_is_neg v F : v < 0 -> rnd v F -> rnd_pos (- v) (- F).
Proof. intros Hv [[-> _]|[[P _]|[_ H]]]; [lra | lra | exact H]. Qed.

Lemma rnd_mono v1 v2 F1 F2 : v1 < v2 -> rnd v1 F1 -> rnd v2 F2 -> F1 <= F2.
Proof.
  intros Hv H1 H2.
  destruct (rnd_sign _ _ H1) as [P1 N1], (rnd_sign _ _ H2) as [P2 N2].
  destruct (Rlt_le_dec 0 v1) as [Hp|Hn].
  - apply (rnd_pos_mono v1 v2); [exact Hv | |]; apply rnd_is_pos; trivial; lra.
  - destruct (Rlt_le_dec v2 0) as [Hn2|Hp2]; [|lra].
    assert (- F2 <= - F1); [|lra].
    apply (rnd_pos_mono (- v2) (- v1)); [lra | |]; apply rnd_is_neg; trivial; lra.
Qed.

(** ** Shifting right with round and sticky bits *)

Lemma fexp_eq e : fexp prec emax e = Z.max (e - 53) (-1074).
Proof. reflexivity. Qed.

Lemma fexp_mono e1 e2 : (e1 <= e2)%Z -> (fexp prec emax e1 <= fexp prec emax e2)%Z.
Proof. rewrite !fexp_eq. lia. Qed.

Lemma IZR_xO p : IZR (Z.pos p~0) = 2 * IZR (Z.pos p).
Proof. rewrite Pos2Z.inj_xO, mult_IZR. reflexivity. Qed.

Lemma IZR_xI p : IZR (Z.pos p~1) = 2 * IZR (Z.pos p) + 1.
Proof. rewrite Pos2Z.inj_xI, plus_IZR, mult_IZR. reflexivity. Qed.

Lemma shr_1_located v mrs e :
  (0 <= shr_m mrs)%Z ->
  located v (shr_m mrs) e (loc_of_shr_record mrs) ->
  located v (shr_m (shr_1 mrs)) (e + 1) (loc_of_shr_record (shr_1 mrs)).
Proof.
  destruct mrs as [m r s]. cbn [shr_m]. intros Hm.
  pose proof (bpow_gt_0 e) as Hb.
  destruct m as [|[p|p|]|p]; try lia;
    destruct r, s; cbn [shr_1 shr_m loc_of_shr_record located orb]; unfold F2R;
    rewrite bpow_succ; try rewrite (IZR_xO p); try rewrite (IZR_xI p);
    intros H; lra.
Qed.

Lemma shr_1_m mrs : (0 <= shr_m mrs)%Z -> shr_m (shr_1 mrs) = (shr_m mrs / 2)%Z.
Proof.
  destruct mrs as [m r s]. cbn [shr_m]. intros Hm.
  destruct m as [|[p|p|]|p]; try lia; cbn [shr_1 shr_m].
  - reflexivity.
  - rewrite Pos2Z.inj_xI. apply Z.div_unique with 1%Z; lia.
  - rewrite Pos2Z.inj_xO. apply Z.div_unique with 0%Z; lia.
  - reflexivity.
Qed.

Lemma iter_pos_invariant {A : Type} (f : A -> A) (P : Z -> A -> Prop) :
  (forall k x, (0 <= k)%Z -> P k x -> P (k + 1)%Z (f x)) ->
  forall p k x, (0 <= k)%Z -> P k x -> P (k + Z.pos p)%Z (SpecFloat.iter_pos f p x).
Proof.
  intros Hstep. induction p as [p IH|p IH|]; intros k x Hk Hx; cbn [SpecFloat.iter_pos].
  - replace (k + Z.pos p~1)%Z with (k + 1 + Z.pos p + Z.pos p)%Z by lia.
    apply IH; [lia|]. apply IH; [lia|]. apply Hstep; assumption.
  - replace (k + Z.pos p~0)%Z with (k + Z.pos p + Z.pos p)%Z by lia.
    apply IH; [lia|]. apply IH; assumption.
  - apply Hstep; assumption.
Qed.

(** [shr] by [n] places divides the mantissa by [2^n] and keeps track of
    where the real number lies. *)
Lemma shr_located v m e l n :
  (0 <= m)%Z ->
  located v m e l ->
  (snd (shr (shr_record_of_loc m l) e n) = e + Z.max n 0)%Z /\
  (shr_m (fst (shr (shr_record_of_loc m l) e n)) = m / 2 ^ Z.max n 0)%Z /\
  located v (shr_m (fst (shr (shr_record_of_loc m l) e n)))
    (snd (shr (shr_record_of_loc m l) e n))
    (loc_of_shr_record (fst (shr (shr_record_of_loc m l) e n))).
Proof.
  intros Hm Hl.
  assert (H0 : shr_m (shr_record_of_loc m l) = m /\
               loc_of_shr_record (shr_record_of_loc m l) = l).
  { destruct l as [|[]]; split; reflexivity. }
  destruct H0 as [E0 L0].
  destruct n as [|p|p]; cbn [shr fst snd].
  - rewrite E0, L0, Z.add_0_r, Z.div_1_r. auto.
  - set (P := fun (k : Z) (r : shr_record) =>
        shr_m r = (m / 2 ^ k)%Z /\
        located v (shr_m r) (e + k) (loc_of_shr_record r)).
    assert (HP : P (0 + Z.pos p)%Z (SpecFloat.iter_pos shr_1 p (shr_record_of_loc m l))).
    { apply iter_pos_invariant.
      - intros k x Hk [Hx1 Hx2]. 
        assert (Hx0 : (0 <= shr_m x)%Z) by (rewrite Hx1; apply Z.div_pos; lia).
        split.
        + rewrite (shr_1_m x Hx0), Hx1, Z.pow_add_r, Z.div_div by lia.
          reflexivity.
        + rewrite Z.add_assoc. apply shr_1_located; assumption.
      - lia.
      - split; [rewrite E0, Z.div_1_r; reflexivity|].
        rewrite E0, L0, Z.add_0_r. exact Hl. }
    destruct HP as [HP1 HP2]. rewrite Z.add_0_l in HP1, HP2.
    rewrite Z.max_l by lia. auto.
  - rewrite E0, L0, Z.add_0_r, Z.div_1_r. auto.
Qed.

(** ** [binary_round_aux] rounds to nearest *)

Lemma binary_round_aux_unfold s m e l :
  binary_round_aux prec emax s m e l =
  round_finish s
    (round_nearest_even (shr_m (fst (shr_fexp prec emax m e l)))
       (loc_of_shr_record (fst (shr_fexp prec emax m e l))))
    (snd (shr_fexp prec emax m e l)).
Proof.
  unfold binary_round_aux, round_finish.
  destruct (shr_fexp prec emax m e l) as [mrs e']. reflexivity.
Qed.

Lemma located_bounds v m e l :
  located v m e l -> F2R m e <= v < F2R (m + 1) e.
Proof.
  rewrite F2R_succ. pose proof (bpow_gt_0 e).
  destruct l as [|[]]; cbn [located]; lra.
Qed.

Lemma round_nearest_even_spec v m E l :
  located v m E l ->
  (m <= round_nearest_even m l <= m + 1)%Z /\
  v - bpow E / 2 <= F2R (round_nearest_even m l) E <= v + bpow E / 2.
Proof.
  pose proof (bpow_gt_0 E).
  destruct l as [|[]]; cbn [located round_nearest_even];
    try destruct (Z.even m); rewrite ?F2R_succ; intros Hl; split; try lia; lra.
Qed.

(** Where the first shift of [binary_round_aux] lands. *)
Lemma shr_fexp_located v m e l :
  (0 <= m)%Z -> 0 < v -> located v m e l ->
  (e <= fexp prec emax (Zdigits2 m + e))%Z ->
  let E := snd (shr_fexp prec emax m e l) in
  let m' := shr_m (fst (shr_fexp prec emax m e l)) in
  let l' := loc_of_shr_record (fst (shr_fexp prec emax m e l)) in
  located v m' E l' /\
  (0 <= m' < 2 ^ prec)%Z /\
  ((E = emin /\ v < bpow (emin + prec)) \/
   ((emin < E)%Z /\ (2 ^ (prec - 1) <= m')%Z /\
    bpow (E + prec - 1) <= v < bpow (E + prec))).
Proof.
  intros Hm Hv Hl He. unfold shr_fexp.
  set (d := (Zdigits2 m + e)%Z) in *.
  set (k := (fexp prec emax d - e)%Z).
  destruct (shr_located v m e l k Hm Hl) as (HE & Hm' & Hl').
  cbn zeta. rewrite HE, Hm' in *. clear HE Hm'.
  assert (Hk : (0 <= k)%Z) by (unfold k; lia).
  rewrite Z.max_l in * by lia.
  assert (HEk : (e + k = fexp prec emax d)%Z) by (unfold k; lia).
  rewrite fexp_eq in HEk.
  destruct (located_bounds _ _ _ _ Hl) as [Hlo Hup].
  pose proof (Zdigits2_nonneg m) as Hd0.
  assert (H2k : (0 < 2 ^ k)%Z) by (apply Z.pow_pos_nonneg; lia).
  (* the value is below 2^d *)
  assert (Hvd : v < bpow d).
  { apply Rlt_le_trans with (1 := Hup).
    replace d with (e + Zdigits2 m)%Z by (unfold d; lia).
    rewrite <- F2R_bpow by exact Hd0.
    apply F2R_le. destruct (Z.eq_dec m 0) as [->|Hm0].
    - cbn. lia.
    - pose proof (Zdigits2_bounds m ltac:(lia)). lia. }
  (* the mantissa has at most 53 digits after the shift *)
  assert (Hm53 : (0 <= m / 2 ^ k < 2 ^ prec)%Z).
  { split; [apply Z.div_pos; lia|].
    apply Z.div_lt_upper_bound; [lia|].
    destruct (Z.eq_dec m 0) as [->|Hm0].
    - pose proof (Z.pow_pos_nonneg 2 prec). unfold prec in *. lia.
    - pose proof (Zdigits2_bounds m ltac:(lia)) as [_ Hu].
      apply Z.lt_le_trans with (1 := Hu).
      rewrite <- Z.pow_add_r by (unfold prec; lia).
      apply Z.pow_le_mono_r; unfold prec, d in *; lia. }
  split; [exact Hl'|]. split; [exact Hm53|].
  destruct (Z_le_gt_dec (d - 53) (-1074)) as [Hsub|Hnorm].
  - left. split; [unfold emin; cbn; lia|].
    apply Rlt_le_trans with (1 := Hvd). apply bpow_le. unfold emin, prec; cbn; lia.
  - right.
    assert (Hm0 : (0 < m)%Z).
    { destruct (Z.eq_dec m 0) as [->|]; [|lia]. unfold d in *. cbn in *. lia. }
    pose proof (Zdigits2_bounds m Hm0) as [Hdl _].
    split; [unfold emin; cbn; lia|]. split.
    + apply Z.div_le_lower_bound; [lia|].
      rewrite <- Z.pow_add_r by (unfold prec; lia).
      apply Z.le_trans with (2 := Hdl). apply Z.pow_le_mono_r; unfold prec, d in *; lia.
    + replace (e + k + prec)%Z with d by (unfold prec; lia). split; [|exact Hvd].
      apply Rle_trans with (2 := Hlo).
      replace (d - 1)%Z with (e + (Zdigits2 m - 1))%Z by (unfold d; lia).
      rewrite <- F2R_bpow by lia. apply F2R_le. exact Hdl.
Qed.

Lemma shr_nonpos mrs e k : (k <= 0)%Z -> shr mrs e k = (mrs, e).
Proof. destruct k; [reflexivity | lia | reflexivity]. Qed.

Lemma Rmin_bpow_emax_l x : x <= bpow emax -> Rmin x (bpow emax) = x.
Proof. apply Rmin_left. Qed.

Lemma Rmin_bpow_emax_r x : bpow emax <= x -> Rmin x (bpow emax) = bpow emax.
Proof. apply Rmin_right. Qed.

(** Renormalisation and overflow. *)
Lemma round_finish_spec s n E :
  (0 <= n <= 2 ^ prec)%Z -> (emin <= E)%Z ->
  ((emin < E)%Z -> (2 ^ (prec - 1) <= n)%Z) ->
  SFis_nan (round_finish s n E) = false /\
  SF2R (round_finish s n E) =
    (if s then - Rmin (F2R n E) (bpow emax) else Rmin (F2R n E) (bpow emax)).
Proof.
  intros Hn HE Hnorm. unfold round_finish, shr_fexp.
  change emin with (-1074)%Z in *. change prec with 53%Z in *.
  change emax with 1024%Z in HE, Hnorm |- *.
  destruct (Z.eq_dec n (2 ^ 53)) as [->|Hne].
  - (* the mantissa has overflowed to 2^53: one more shift, exact *)
    replace (fexp 53 1024 (Zdigits2 (2 ^ 53) + E) - E)%Z with 1%Z
      by (change (Zdigits2 (2 ^ 53)) with 54%Z; unfold fexp, SpecFloat.emin; lia).
    cbn -[bpow F2R Z.leb Z.sub].
    assert (HF : F2R (2 ^ 53) E = bpow (E + 53)) by (apply F2R_bpow; lia).
    assert (HF' : F2R 4503599627370496 (E + 1) = bpow (E + 53)).
    { change 4503599627370496%Z with (2 ^ 52)%Z. rewrite F2R_bpow by lia.
      f_equal. lia. }
    change 9007199254740992%Z with (2 ^ 53)%Z. rewrite HF.
    destruct (Z.leb_spec (E + 1) (1024 - 53)) as [Hle|Hgt]; cbn [SFis_nan SF2R].
    + rewrite HF', Rmin_left by (apply bpow_le; lia).
      destruct s; auto.
    + rewrite Rmin_right by (apply bpow_le; lia).
      destruct s; auto.
  - assert (Hlt : (0 <= n < 2 ^ 53)%Z) by lia.
    pose proof (Zdigits2_lt n 53 ltac:(lia) Hlt) as Hd.
    rewrite shr_nonpos by (unfold fexp, SpecFloat.emin; lia).
    cbn [shr_m shr_record_of_loc].
    destruct n as [|p|p]; [| |lia].
    + cbn [SFis_nan SF2R]. unfold F2R. rewrite Rmult_0_l.
      rewrite Rmin_left by (pose proof (bpow_gt_0 1024); lra).
      destruct s; split; auto; lra.
    + destruct (Z.leb_spec E (1024 - 53)) as [Hle|Hgt]; cbn [SFis_nan SF2R].
      * assert (F2R (Z.pos p) E <= bpow 1024).
        { apply Rle_trans with (F2R (2 ^ 53) E); [apply F2R_le; lia|].
          rewrite F2R_bpow by lia. apply bpow_le; lia. }
        rewrite Rmin_left by assumption. destruct s; auto.
      * assert (bpow 1024 <= F2R (Z.pos p) E).
        { apply Rle_trans with (F2R (2 ^ 52) E); [|apply F2R_le; apply Hnorm; lia].
          rewrite F2R_bpow by lia. apply bpow_le; lia. }
        rewrite Rmin_right by assumption. destruct s; auto.
Qed.

Lemma binary_round_aux_rnd s m e l v :
  (0 <= m)%Z -> 0 < v -> located v m e l ->
  (e <= fexp prec emax (Zdigits2 m + e))%Z ->
  exists F,
    rnd_pos v F /\
    SFis_nan (binary_round_aux prec emax s m e l) = false /\
    SF2R (binary_round_aux prec emax s m e l) = (if s then - F else F).
Proof.
  intros Hm Hv Hl He.
  destruct (shr_fexp_located v m e l Hm Hv Hl He) as (Hl' & Hm' & HB).
  rewrite binary_round_aux_unfold.
  set (E := snd (shr_fexp prec emax m e l)) in *.
  set (m' := shr_m (fst (shr_fexp prec emax m e l))) in *.
  set (l' := loc_of_shr_record (fst (shr_fexp prec emax m e l))) in *.
  destruct (round_nearest_even_spec v m' E l' Hl') as [Hn Hnear].
  set (n := round_nearest_even m' l') in *.
  destruct (round_finish_spec s n E) as [Hnan Hval].
  - lia.
  - destruct HB as [[-> _]|[H _]]; lia.
  - intros HE. destruct HB as [[H0 _]|[_ [H _]]]; lia.
  - exists (Rmin (F2R n E) (bpow emax)). split; [|split; assumption].
    exists E, n. split; [exact Hnear|]. split; [reflexivity|].
    destruct HB as [[H0 H1]|[H0 [_ H1]]]; [left|right]; auto.
Qed.

(** ** Alignment and normalisation *)

Lemma iter_xO_value (m d : positive) :
  Z.pos (Pos.iter xO m d) = (Z.pos m * 2 ^ Z.pos d)%Z.
Proof.
  induction d as [|d IH] using Pos.peano_ind.
  - cbn [Pos.iter]. rewrite Pos2Z.inj_xO. lia.
  - rewrite Pos.iter_succ, Pos2Z.inj_xO, IH, Pos2Z.inj_succ, Z.pow_succ_r by lia.
    lia.
Qed.

Lemma iter_xO_digits (m d : positive) :
  Z.pos (digits2_pos (Pos.iter xO m d)) = (Z.pos (digits2_pos m) + Z.pos d)%Z.
Proof.
  induction d as [|d IH] using Pos.peano_ind.
  - cbn [Pos.iter digits2_pos]. lia.
  - rewrite Pos.iter_succ. cbn [digits2_pos]. rewrite Pos2Z.inj_succ, IH. lia.
Qed.

Lemma shl_align_spec (m : positive) (e e' : Z) :
  let mz := fst (shl_align m e e') in
  let ez := snd (shl_align m e e') in
  F2R (Z.pos mz) ez = F2R (Z.pos m) e /\
  ez = Z.min e e' /\
  (Z.pos (digits2_pos mz) + ez = Z.pos (digits2_pos m) + e)%Z.
Proof.
  unfold shl_align. destruct (e' - e)%Z as [|d|d] eqn:Hd; cbn [fst snd].
  - repeat split; lia.
  - repeat split; lia.
  - assert (He : e = (e' + Z.pos d)%Z) by lia.
    rewrite iter_xO_value, iter_xO_digits, He.
    repeat split; try lia. apply F2R_shift; lia.
Qed.

Lemma binary_round_rnd s (p : positive) e :
  exists F,
    rnd_pos (F2R (Z.pos p) e) F /\
    SFis_nan (binary_round prec emax s p e) = false /\
    SF2R (binary_round prec emax s p e) = (if s then - F else F).
Proof.
  unfold binary_round.
  destruct (shl_align_spec p e (fexp prec emax (Z.pos (digits2_pos p) + e)))
    as (Hv & He & Hd).
  destruct (shl_align p e (fexp prec emax (Z.pos (digits2_pos p) + e)))
    as [mz ez]. cbn [fst snd] in *.
  rewrite <- Hv.
  apply binary_round_aux_rnd.
  - lia.
  - unfold F2R. pose proof (bpow_gt_0 ez).
    assert (0 < IZR (Z.pos mz)) by (apply IZR_lt; lia). nra.
  - reflexivity.
  - cbn [Zdigits2]. rewrite Hd. lia.
Qed.

Lemma binary_normalize_rnd M e sz :
  SFis_nan (binary_normalize prec emax M e sz) = false /\
  rnd (F2R M e) (SF2R (binary_normalize prec emax M e sz)).
Proof.
  destruct M as [|p|p]; cbn [binary_normalize].
  - split; [reflexivity|]. left. unfold F2R. cbn [SF2R]. split; lra.
  - destruct (binary_round_rnd false p e) as (F & HF & Hn & Hv).
    split; [exact Hn|]. right; left. rewrite Hv. split; [|exact HF].
    unfold F2R. pose proof (bpow_gt_0 e).
    assert (0 < IZR (Z.pos p)) by (apply IZR_lt; lia). nra.
  - destruct (binary_round_rnd true p e) as (F & HF & Hn & Hv).
    split; [exact Hn|]. right; right. rewrite Hv, Ropp_involutive.
    assert (HM : F2R (Z.neg p) e = - F2R (Z.pos p) e).
    { unfold F2R. change (Z.neg p) with (- Z.pos p)%Z. rewrite opp_IZR. ring. }
    rewrite HM, Ropp_involutive. split; [|exact HF].
    unfold F2R. pose proof (bpow_gt_0 e).
    assert (0 < IZR (Z.pos p)) by (apply IZR_lt; lia). nra.
Qed.

(** ** Valid numbers *)

Lemma valid_finite_inv s m e :
  valid_binary (S754_finite s m e) = true ->
  (e = Z.max (Z.pos (digits2_pos m) + e - 53) (-1074) /\ e <= 971)%Z.
Proof.
  unfold SpecFloat.valid_binary, SpecFloat.bounded, SpecFloat.canonical_mantissa.
  rewrite andb_true_iff, Z.eqb_eq, Z.leb_le, fexp_eq.
  change (emax - prec)%Z with 971%Z. intros [H1 H2]. split; [symmetry|]; assumption.
Qed.

Lemma valid_finite_range s m e :
  valid_binary (S754_finite s m e) = true ->
  0 < F2R (Z.pos m) e < bpow emax.
Proof.
  intros H. destruct (valid_finite_inv _ _ _ H) as [Hc Hb].
  pose proof (digits2_pos_bounds m) as [_ Hu]. split.
  - unfold F2R. pose proof (bpow_gt_0 e).
    assert (0 < IZR (Z.pos m)) by (apply IZR_lt; lia). nra.
  - apply Rlt_le_trans with (F2R (2 ^ Z.pos (digits2_pos m)) e).
    + unfold F2R. apply Rmult_lt_compat_r; [apply bpow_gt_0 | apply IZR_lt; exact Hu].
    + rewrite F2R_bpow by lia. apply bpow_le. change emax with 1024%Z. lia.
Qed.

(** A valid number is its own rounding. *)
Lemma valid_rnd_pos_self s m e :
  valid_binary (S754_finite s m e) = true ->
  rnd_pos (F2R (Z.pos m) e) (F2R (Z.pos m) e).
Proof.
  intros H. destruct (valid_finite_inv _ _ _ H) as [Hc Hb].
  destruct (valid_finite_range _ _ _ H) as [H0 Hmax].
  pose proof (digits2_pos_bounds m) as [Hl Hu].
  exists e, (Z.pos m). pose proof (bpow_gt_0 e). split; [lra|].
  split; [symmetry; apply Rmin_left; lra|].
  change emin with (-1074)%Z. change prec with 53%Z.
  destruct (Z.eq_dec e (-1074)) as [He|He]; [left|right].
  - split; [exact He|].
    apply Rlt_le_trans with (F2R (2 ^ Z.pos (digits2_pos m)) e).
    + unfold F2R. apply Rmult_lt_compat_r; [apply bpow_gt_0 | apply IZR_lt; exact Hu].
    + rewrite F2R_bpow by lia. apply bpow_le. lia.
  - assert (Hd : Z.pos (digits2_pos m) = 53%Z) by lia. rewrite Hd in *.
    split; [lia|]. split.
    + replace (e + 53 - 1)%Z with (e + 52)%Z by lia.
      rewrite <- F2R_bpow by lia. apply F2R_le. exact Hl.
    + rewrite <- F2R_bpow by lia.
      unfold F2R. apply Rmult_lt_compat_r; [apply bpow_gt_0 | apply IZR_lt; exact Hu].
Qed.

Lemma valid_rnd_self x :
  valid_binary x = true -> SFis_nan x = false -> 
  match x with S754_infinity _ => True | _ => rnd (SF2R x) (SF2R x) end.
Proof.
  intros H Hn. destruct x as [s|s| |s m e]; try exact I; try discriminate.
  - left. cbn. split; reflexivity.
  - pose proof (valid_rnd_pos_self s m e H) as Hr.
    destruct (valid_finite_range _ _ _ H) as [H0 _].
    destruct s; cbn [SF2R].
    + right; right. rewrite Ropp_involutive. split; [lra | exact Hr].
    + right; left. split; [lra | exact Hr].
Qed.

Lemma valid_opp s m e :
  valid_binary (S754_finite s m e) = true ->
  valid_binary (S754_finite (negb s) m e) = true.
Proof. intros H; exact H. Qed.

(** ** Subtraction and addition *)

Lemma F2R_opp m e : F2R (- m) e = - F2R m e.
Proof. unfold F2R. rewrite opp_IZR. ring. Qed.

Lemma F2R_plus m1 m2 e : F2R (m1 + m2) e = F2R m1 e + F2R m2 e.
Proof. unfold F2R. rewrite plus_IZR. ring. Qed.

Lemma F2R_minus m1 m2 e : F2R (m1 - m2) e = F2R m1 e - F2R m2 e.
Proof. unfold F2R. rewrite minus_IZR. ring. Qed.

Lemma F2R_cond_Zopp_align s m e ez :
  (ez <= e)%Z ->
  F2R (cond_Zopp s (Z.pos (fst (shl_align m e ez)))) ez
    = SF2R (S754_finite s m e).
Proof.
  intros H. destruct (shl_align_spec m e ez) as (Hv & He & _).
  rewrite Z.min_r in He by lia. rewrite He in Hv.
  destruct s; cbn [cond_Zopp SF2R]; [rewrite F2R_opp|]; rewrite Hv; reflexivity.
Qed.

Lemma SF2R_opp_finite s m e :
  SF2R (S754_finite (negb s) m e) = - SF2R (S754_finite s m e).
Proof. destruct s; cbn [negb SF2R]; ring. Qed.

Lemma SF64sub_rounds sc mc ec :
  valid_binary (S754_finite sc mc ec) = true ->
  rounds (fun v => v - SF2R (S754_finite sc mc ec))
         (fun x => SF64sub x (S754_finite sc mc ec)).
Proof.
  intros Hc. unfold SF64sub. split; [|split; [|split]].
  - intros s. reflexivity.
  - intros s. reflexivity.
  - intros [s|s| |s m e] Hn Hx; try reflexivity; try discriminate.
    cbn [SFsub]; apply binary_normalize_rnd.
  - intros [s|s| |s m e] Hx; try exact I.
    + cbn [SFsub]. cbv beta. change (SF2R (S754_zero s)) with 0.
      rewrite Rminus_0_l, <- SF2R_opp_finite.
      apply (valid_rnd_self (S754_finite (negb sc) mc ec)); [exact Hc | reflexivity].
    + cbn [SFsub]. cbv beta.
      rewrite <- (F2R_cond_Zopp_align s m e (Z.min e ec)) by lia.
      rewrite <- (F2R_cond_Zopp_align sc mc ec (Z.min e ec)) by lia.
      rewrite <- F2R_minus. apply binary_normalize_rnd.
Qed.

Lemma SF64add_rounds sc mc ec :
  valid_binary (S754_finite sc mc ec) = true ->
  rounds (fun v => SF2R (S754_finite sc mc ec) + v)
         (fun x => SF64add (S754_finite sc mc ec) x).
Proof.
  intros Hc. unfold SF64add. split; [|split; [|split]].
  - intros s. reflexivity.
  - intros s. reflexivity.
  - intros [s|s| |s m e] Hn Hx; try reflexivity; try discriminate.
    cbn [SFadd]; apply binary_normalize_rnd.
  - intros [s|s| |s m e] Hx; try exact I.
    + cbn [SFadd]. cbv beta. change (SF2R (S754_zero s)) with 0.
      rewrite Rplus_0_r.
      apply (valid_rnd_self (S754_finite sc mc ec)); [exact Hc | reflexivity].
    + cbn [SFadd]. cbv beta.
      rewrite <- (F2R_cond_Zopp_align s m e (Z.min ec e)) by lia.
      rewrite <- (F2R_cond_Zopp_align sc mc ec (Z.min ec e)) by lia.
      rewrite <- F2R_plus. apply binary_normalize_rnd.
Qed.

(** ** Multiplication *)

Lemma F2R_pos (p : positive) e : 0 < F2R (Z.pos p) e.
Proof.
  unfold F2R. pose proof (bpow_gt_0 e).
  assert (0 < IZR (Z.pos p)) by (apply IZR_lt; lia). nra.
Qed.

Lemma F2R_mult m1 e1 m2 e2 : F2R (m1 * m2) (e1 + e2) = F2R m1 e1 * F2R m2 e2.
Proof. unfold F2R. rewrite mult_IZR, bpow_add. ring. Qed.

Lemma digits2_pos_mul (m1 m2 : positive) :
  (Z.pos (digits2_pos m1) + Z.pos (digits2_pos m2) - 1
     <= Z.pos (digits2_pos (m1 * m2)))%Z.
Proof.
  pose proof (digits2_pos_bounds m1) as [H1 _].
  pose proof (digits2_pos_bounds m2) as [H2 _].
  assert (H : (2 ^ (Z.pos (digits2_pos m1) + Z.pos (digits2_pos m2) - 2)
                 <= Z.pos (m1 * m2))%Z).
  { replace (Z.pos (digits2_pos m1) + Z.pos (digits2_pos m2) - 2)%Z
      with ((Z.pos (digits2_pos m1) - 1) + (Z.pos (digits2_pos m2) - 1))%Z by lia.
    rewrite Z.pow_add_r, Pos2Z.inj_mul by lia.
    apply Z.mul_le_mono_nonneg; try assumption; apply Z.pow_nonneg; lia. }
  apply Zdigits2_ge in H; [|lia]. cbn [Zdigits2] in H. lia.
Qed.

Lemma mul_exponent_ok s1 m1 e1 s2 m2 e2 :
  valid_binary (S754_finite s1 m1 e1) = true ->
  valid_binary (S754_finite s2 m2 e2) = true ->
  (e1 + e2 <= fexp prec emax (Zdigits2 (Z.pos (m1 * m2)) + (e1 + e2)))%Z.
Proof.
  intros H1 H2.
  destruct (valid_finite_inv _ _ _ H1) as [Hc1 _].
  destruct (valid_finite_inv _ _ _ H2) as [Hc2 _].
  pose proof (digits2_pos_mul m1 m2). rewrite fexp_eq. cbn [Zdigits2]. lia.
Qed.

Lemma SF64mul_rounds mw ew :
  valid_binary (S754_finite false mw ew) = true ->
  rounds (fun v => v * SF2R (S754_finite false mw ew))
         (fun x => SF64mul x (S754_finite false mw ew)).
Proof.
  intros Hw. unfold SF64mul.
  assert (Hfin : forall s m e, valid_binary (S754_finite s m e) = true ->
            exists F, rnd_pos (F2R (Z.pos m) e * F2R (Z.pos mw) ew) F /\
              SFis_nan (SFmul prec emax (S754_finite s m e) (S754_finite false mw ew)) = false /\
              SF2R (SFmul prec emax (S754_finite s m e) (S754_finite false mw ew))
                = (if s then - F else F)).
  { intros s m e Hx. cbn [SFmul]. rewrite xorb_false_r.
    rewrite <- F2R_mult, <- Pos2Z.inj_mul.
    apply binary_round_aux_rnd.
    - lia.
    - apply F2R_pos.
    - reflexivity.
    - exact (mul_exponent_ok _ _ _ _ _ _ Hx Hw). }
  split; [|split; [|split]].
  - intros s. cbn [SFmul]. rewrite xorb_false_r. reflexivity.
  - intros s. reflexivity.
  - intros [s|s| |s m e] Hn Hx; try reflexivity; try discriminate.
    destruct (Hfin s m e Hx) as (F & _ & H & _). exact H.
  - intros [s|s| |s m e] Hx; try exact I; cbv beta.
    + left. cbn [SFmul SF2R]. split; ring.
    + destruct (Hfin s m e Hx) as (F & HF & _ & Hv). rewrite Hv.
      pose proof (F2R_pos m e). pose proof (F2R_pos mw ew).
      destruct s; cbn [SF2R].
      * right; right. rewrite Ropp_involutive.
        replace (- (- F2R (Z.pos m) e * F2R (Z.pos mw) ew))
          with (F2R (Z.pos m) e * F2R (Z.pos mw) ew) by ring.
        split; [nra | exact HF].
      * right; left. split; [nra | exact HF].
Qed.

(** ** Division *)

Lemma new_location_located (q r m2 e : Z) (v : R) :
  (0 < m2)%Z -> (0 <= r < m2)%Z ->
  v = F2R q e + IZR r / IZR m2 * bpow e ->
  located v q e (new_location m2 r).
Proof.
  intros Hm2 Hr ->. pose proof (bpow_gt_0 e) as Hb.
  assert (Hm2R : 0 < IZR m2) by (apply IZR_lt; lia).
  set (t := IZR r / IZR m2).
  assert (Hex : r = 0%Z -> t = 0).
  { intros ->. unfold t, Rdiv. ring. }
  assert (Ht0 : r <> 0%Z -> 0 < t).
  { intros Hr0. unfold t. apply Rdiv_lt_0_compat; [apply IZR_lt; lia | exact Hm2R]. }
  assert (Hcmp : forall c, (2 * r ?= m2)%Z = c ->
            match c with
            | Lt => 2 * t < 1 | Eq => 2 * t = 1 | Gt => 1 < 2 * t end).
  { intros c Hc.
    assert (Ht : 2 * t * IZR m2 = IZR (2 * r)).
    { unfold t. rewrite mult_IZR. field. lra. }
    destruct c.
    - apply Z.compare_eq in Hc. rewrite Hc in Ht. nra.
    - rewrite Z.compare_lt_iff in Hc. apply IZR_lt in Hc. nra.
    - rewrite Z.compare_gt_iff in Hc. apply IZR_lt in Hc. nra. }
  assert (Ht1 : t < 1).
  { unfold t. apply Rmult_lt_reg_r with (IZR m2); [exact Hm2R|].
    unfold Rdiv. rewrite Rmult_assoc, Rinv_l, Rmult_1_r, Rmult_1_l by lra.
    apply IZR_lt; lia. }
  unfold new_location.
  destruct (Z.even m2) eqn:Hev.
  - unfold new_location_even.
    destruct (Z.eqb_spec r 0) as [Hr0|Hr0].
    + cbn [located]. rewrite (Hex Hr0). ring.
    + specialize (Hcmp _ eq_refl). specialize (Ht0 Hr0).
      destruct (2 * r ?= m2)%Z; cbn [located]; nra.
  - unfold new_location_odd.
    destruct (Z.eqb_spec r 0) as [Hr0|Hr0].
    + cbn [located]. rewrite (Hex Hr0). ring.
    + specialize (Ht0 Hr0).
      assert (Hodd : (2 * r <> m2)%Z).
      { intros E. rewrite <- E, Z.even_mul in Hev. discriminate. }
      destruct (2 * r + 1 ?= m2)%Z eqn:Hc.
      * apply Z.compare_eq in Hc.
        assert (H2 : (2 * r ?= m2)%Z = Lt) by (rewrite Z.compare_lt_iff; lia).
        specialize (Hcmp _ H2). cbn [located]. nra.
      * rewrite Z.compare_lt_iff in Hc.
        assert (H2 : (2 * r ?= m2)%Z = Lt) by (rewrite Z.compare_lt_iff; lia).
        specialize (Hcmp _ H2). cbn [located]. nra.
      * rewrite Z.compare_gt_iff in Hc.
        assert (H2 : (2 * r ?= m2)%Z = Gt) by (rewrite Z.compare_gt_iff; lia).
        specialize (Hcmp _ H2). cbn [located]. nra.
Qed.

Lemma SFdiv_core_binary_spec (m1 m2 : positive) (e1 e2 : Z) :
  let X := SFdiv_core_binary prec emax (Z.pos m1) e1 (Z.pos m2) e2 in
  let q := fst (fst X) in
  let e' := snd (fst X) in
  (0 <= q)%Z /\
  located (F2R (Z.pos m1) e1 / F2R (Z.pos m2) e2) q e' (snd X) /\
  (e' <= fexp prec emax (Zdigits2 q + e'))%Z.
Proof.
  unfold SFdiv_core_binary. cbn [Zdigits2].
  set (d1 := Z.pos (digits2_pos m1)). set (d2 := Z.pos (digits2_pos m2)).
  set (e' := Z.min (fexp prec emax (d1 + e1 - (d2 + e2))) (e1 - e2)).
  set (s := (e1 - e2 - e')%Z).
  assert (Hs : (0 <= s)%Z) by (unfold s, e'; lia).
  set (m' := match s with
             | 0%Z => Z.pos m1
             | Z.pos _ => Z.shiftl (Z.pos m1) s
             | Z.neg _ => 0%Z
             end).
  assert (Hm' : m' = (Z.pos m1 * 2 ^ s)%Z).
  { unfold m'. destruct s as [|p|p]; [rewrite Z.pow_0_r; lia | | lia].
    apply Z.shiftl_mul_pow2. lia. }
  pose proof (Z_div_mod m' (Z.pos m2) ltac:(lia)) as Hdiv.
  destruct (Z.div_eucl m' (Z.pos m2)) as [q r]. destruct Hdiv as [Hqr Hr].
  cbn [fst snd].
  assert (H2s : (0 < 2 ^ s)%Z) by (apply Z.pow_pos_nonneg; lia).
  assert (Hq : (0 <= q)%Z) by nia.
  split; [exact Hq|]. split.
  - apply new_location_located; [lia | exact Hr |].
    assert (He1 : e1 = (e' + s + e2)%Z) by (unfold s; lia).
    assert (HmR : IZR (Z.pos m1) * bpow s = IZR (Z.pos m2) * IZR q + IZR r).
    { rewrite bpow_IZR, <- mult_IZR, <- Hm', Hqr, plus_IZR, mult_IZR by exact Hs.
      reflexivity. }
    unfold F2R. rewrite He1, !bpow_add.
    pose proof (bpow_gt_0 e2). pose proof (bpow_gt_0 e').
    assert (0 < IZR (Z.pos m2)) by (apply IZR_lt; lia).
    replace (IZR (Z.pos m1) * (bpow e' * bpow s * bpow e2))
      with ((IZR (Z.pos m2) * IZR q + IZR r) * bpow e' * bpow e2)
      by (rewrite <- HmR; ring).
    field. split; lra.
  - pose proof (digits2_pos_bounds m1) as [Hl1 _].
    pose proof (digits2_pos_bounds m2) as [_ Hu2].
    fold d1 in Hl1. fold d2 in Hu2.
    pose proof (Zdigits2_nonneg q) as Hdq.
    assert (He' : (e' <= Z.max (d1 + e1 - (d2 + e2) - 53) (-1074))%Z).
    { unfold e'. rewrite fexp_eq. lia. }
    rewrite fexp_eq.
    destruct (Z_le_gt_dec 0 (d1 - 1 + s - d2)) as [Hk|Hk].
    + (* the quotient has enough digits *)
      assert (Hq2 : (2 ^ (d1 - 1 + s - d2) <= q)%Z).
      { assert (H1 : (2 ^ (d1 - 1 + s) <= m')%Z).
        { rewrite Hm'. replace (d1 - 1 + s)%Z with ((d1 - 1) + s)%Z by lia.
          rewrite Z.pow_add_r by (unfold d1; lia).
          apply Z.mul_le_mono_nonneg_r; lia. }
        assert (H2 : (m' < 2 ^ d2 * (q + 1))%Z) by nia.
        replace (d1 - 1 + s)%Z with (d2 + (d1 - 1 + s - d2))%Z in H1 by lia.
        rewrite Z.pow_add_r in H1 by (unfold d2; lia).
        assert (H3 : (2 ^ d2 * 2 ^ (d1 - 1 + s - d2) < 2 ^ d2 * (q + 1))%Z) by lia.
        apply Z.mul_lt_mono_pos_l in H3; [lia|]. apply Z.pow_pos_nonneg; unfold d2; lia. }
      apply Zdigits2_ge in Hq2; [|lia]. unfold s in *. lia.
    + unfold s in *. lia.
Qed.

Lemma SF64div_rounds mc ec :
  valid_binary (S754_finite false mc ec) = true ->
  rounds (fun v => v / SF2R (S754_finite false mc ec))
         (fun x => SF64div x (S754_finite false mc ec)).
Proof.
  intros Hc. unfold SF64div.
  assert (Hfin : forall s m e,
            exists F, rnd_pos (F2R (Z.pos m) e / F2R (Z.pos mc) ec) F /\
              SFis_nan (SFdiv prec emax (S754_finite s m e) (S754_finite false mc ec)) = false /\
              SF2R (SFdiv prec emax (S754_finite s m e) (S754_finite false mc ec))
                = (if s then - F else F)).
  { intros s m e. cbn [SFdiv]. rewrite xorb_false_r.
    destruct (SFdiv_core_binary_spec m mc e ec) as (Hq & Hl & He).
    destruct (SFdiv_core_binary prec emax (Z.pos m) e (Z.pos mc) ec) as [[q e'] l].
    cbn [fst snd] in *.
    apply binary_round_aux_rnd; try assumption.
    apply Rdiv_lt_0_compat; apply F2R_pos. }
  split; [|split; [|split]].
  - intros s. cbn [SFdiv]. rewrite xorb_false_r. reflexivity.
  - intros s. reflexivity.
  - intros [s|s| |s m e] Hn Hx; try reflexivity; try discriminate.
    destruct (Hfin s m e) as (F & _ & H & _). exact H.
  - intros [s|s| |s m e] Hx; try exact I; cbv beta.
    + left. cbn [SFdiv SF2R]. split; [unfold Rdiv; ring | reflexivity].
    + destruct (Hfin s m e) as (F & HF & _ & Hv). rewrite Hv.
      pose proof (F2R_pos m e). pose proof (F2R_pos mc ec).
      assert (0 < F2R (Z.pos m) e / F2R (Z.pos mc) ec)
        by (apply Rdiv_lt_0_compat; assumption).
      destruct s; cbn [SF2R].
      * right; right. rewrite Ropp_involutive.
        replace (- (- F2R (Z.pos m) e / F2R (Z.pos mc) ec))
          with (F2R (Z.pos m) e / F2R (Z.pos mc) ec) by (unfold Rdiv; ring).
        split; [|exact HF]. unfold Rdiv in *. lra.
      * right; left. split; [assumption | exact HF].
Qed.

(** ** The order of binary64 is the order of the reals *)

Lemma SF2R_range x :
  valid_binary x = true -> - bpow emax <= SF2R x <= bpow emax.
Proof.
  intros H. pose proof (bpow_gt_0 emax).
  destruct x as [s|s| |s m e]; cbn [SF2R]; try lra.
  - destruct s; lra.
  - destruct (valid_finite_range s m e H). destruct s; lra.
Qed.

Lemma valid_magnitude_compare m1 e1 m2 e2 :
  valid_binary (S754_finite false m1 e1) = true ->
  valid_binary (S754_finite false m2 e2) = true ->
  match
    match (e1 ?= e2)%Z with
    | Lt => Lt | Gt => Gt | Eq => Pos.compare_cont Eq m1 m2
    end
  with
  | Lt => F2R (Z.pos m1) e1 < F2R (Z.pos m2) e2
  | Gt => F2R (Z.pos m2) e2 < F2R (Z.pos m1) e1
  | Eq => m1 = m2 /\ e1 = e2
  end.
Proof.
  intros H1 H2.
  destruct (valid_finite_inv _ _ _ H1) as [Hc1 _].
  destruct (valid_finite_inv _ _ _ H2) as [Hc2 _].
  pose proof (digits2_pos_bounds m1) as [Hl1 Hu1].
  pose proof (digits2_pos_bounds m2) as [Hl2 Hu2].
  assert (Hbelow : forall m e, (Z.pos m < 2 ^ Z.pos (digits2_pos m))%Z ->
            (Z.pos (digits2_pos m) <= 53)%Z -> F2R (Z.pos m) e < bpow (e + 53)).
  { intros m e Hu Hd. rewrite <- F2R_bpow by lia. unfold F2R.
    apply Rmult_lt_compat_r; [apply bpow_gt_0|]. apply IZR_lt.
    apply Z.lt_le_trans with (1 := Hu). apply Z.pow_le_mono_r; lia. }
  assert (Habove : forall m e, (2 ^ (Z.pos (digits2_pos m) - 1) <= Z.pos m)%Z ->
            Z.pos (digits2_pos m) = 53%Z -> bpow (e + 52) <= F2R (Z.pos m) e).
  { intros m e Hl Hd. rewrite <- F2R_bpow by lia. apply F2R_le.
    rewrite Hd in Hl. exact Hl. }
  destruct (Z.compare_spec e1 e2) as [He|He|He].
  - subst e2. change (Pos.compare_cont Eq m1 m2) with (Pos.compare m1 m2).
    destruct (Pos.compare_spec m1 m2) as [Hm|Hm|Hm].
    + auto.
    + unfold F2R. apply Rmult_lt_compat_r; [apply bpow_gt_0 | apply IZR_lt; lia].
    + unfold F2R. apply Rmult_lt_compat_r; [apply bpow_gt_0 | apply IZR_lt; lia].
  - apply Rlt_le_trans with (bpow (e1 + 53)); [apply Hbelow; [assumption | lia]|].
    apply Rle_trans with (bpow (e2 + 52)); [apply bpow_le; lia|].
    apply Habove; [assumption | lia].
  - apply Rlt_le_trans with (bpow (e2 + 53)); [apply Hbelow; [assumption | lia]|].
    apply Rle_trans with (bpow (e1 + 52)); [apply bpow_le; lia|].
    apply Habove; [assumption | lia].
Qed.

Lemma SFcompare_R x y :
  valid_binary x = true -> valid_binary y = true ->
  match SFcompare x y with
  | None => SFis_nan x = true \/ SFis_nan y = true
  | Some Lt => SF2R x < SF2R y
  | Some Gt => SF2R y < SF2R x
  | Some Eq =>
      x = y \/ exists s1 s2, x = S754_zero s1 /\ y = S754_zero s2
  end.
Proof.
  intros Hx Hy. pose proof (bpow_gt_0 emax) as Hmax.
  destruct x as [sx|sx| |sx mx ex], y as [sy|sy| |sy my ey];
    cbn [SFcompare]; auto;
    try (pose proof (valid_finite_range _ _ _ Hx) as [Hx0 Hx1]);
    try (pose proof (valid_finite_range _ _ _ Hy) as [Hy0 Hy1]).
  - right. eauto.
  - destruct sy; cbn [SF2R]; lra.
  - destruct sy; cbn [SF2R]; lra.
  - destruct sx; cbn [SF2R]; lra.
  - destruct sx, sy; cbn [SF2R]; auto; lra.
  - destruct sx, sy; cbn [SF2R]; lra.
  - destruct sx; cbn [SF2R]; lra.
  - destruct sx, sy; cbn [SF2R]; lra.
  - pose proof (valid_magnitude_compare mx ex my ey Hx Hy) as Hc.
    destruct sx, sy; cbn [SF2R]; try lra.
    + destruct (ex ?= ey)%Z; try lra.
      destruct (Pos.compare_cont Eq mx my); cbn [CompOpp]; try lra.
      destruct Hc as [-> ->]. auto.
    + destruct (ex ?= ey)%Z; try lra.
      destruct (Pos.compare_cont Eq mx my); try lra.
      destruct Hc as [-> ->]. auto.
Qed.

Lemma SFleb_R x y :
  valid_binary x = true -> valid_binary y = true -> SFleb x y = true ->
  SFis_nan x = false /\ SFis_nan y = false /\
  (SF2R x < SF2R y \/ x = y \/
   exists s1 s2, x = S754_zero s1 /\ y = S754_zero s2).
Proof.
  intros Hx Hy H. pose proof (SFcompare_R x y Hx Hy) as Hc.
  unfold SFleb in H.
  assert (Hn : SFis_nan x = false /\ SFis_nan y = false).
  { destruct x, y; cbn in H |- *; try discriminate; auto. }
  destruct Hn as [Hnx Hny]. split; [exact Hnx|]. split; [exact Hny|].
  destruct (SFcompare x y) as [[| |]|]; try discriminate; auto.
Qed.

Lemma R_SFleb x y :
  valid_binary x = true -> valid_binary y = true ->
  SFis_nan x = false -> SFis_nan y = false ->
  SF2R x <= SF2R y -> SFleb x y = true.
Proof.
  intros Hx Hy Hnx Hny H. pose proof (SFcompare_R x y Hx Hy) as Hc.
  unfold SFleb. destruct (SFcompare x y) as [[| |]|]; try reflexivity.
  - lra.
  - destruct Hc as [Hc|Hc]; congruence.
Qed.

(** ** Rounded increasing functions are non-decreasing *)

Theorem rounds_monotone (g : R -> R) (op : spec_float -> spec_float) :
  rounds g op ->
  (forall a b, a < b -> g a < g b) ->
  forall x y,
    valid_binary x = true -> valid_binary y = true ->
    valid_binary (op x) = true -> valid_binary (op y) = true ->
    SFleb x y = true -> SFleb (op x) (op y) = true.
Proof.
  intros (Hinf & Hzero & Hnan & Hrnd) Hg x y Hx Hy Hox Hoy Hle.
  destruct (SFleb_R x y Hx Hy Hle) as (Hnx & Hny & Hcases).
  pose proof (Hnan x Hnx Hx) as Hnox. pose proof (Hnan y Hny Hy) as Hnoy.
  apply R_SFleb; try assumption.
  destruct Hcases as [Hlt|[->|(s1 & s2 & -> & ->)]].
  - pose proof (SF2R_range _ Hox) as Rx. pose proof (SF2R_range _ Hoy) as Ry.
    pose proof (SF2R_range _ Hx) as Rx0. pose proof (SF2R_range _ Hy) as Ry0.
    pose proof (Hrnd x Hx) as Hrx. pose proof (Hrnd y Hy) as Hry.
    pose proof (bpow_gt_0 emax) as Hmax.
    destruct x as [sx|sx| |sx mx ex]; try discriminate.
    + destruct y as [sy|sy| |sy my ey]; try discriminate.
      * exact (rnd_mono _ _ _ _ (Hg _ _ Hlt) Hrx Hry).
      * rewrite (Hinf sy). destruct sy; cbn [SF2R] in *; lra.
      * exact (rnd_mono _ _ _ _ (Hg _ _ Hlt) Hrx Hry).
    + rewrite (Hinf sx). destruct sx; cbn [SF2R] in Hlt |- *; lra.
    + destruct y as [sy|sy| |sy my ey]; try discriminate.
      * exact (rnd_mono _ _ _ _ (Hg _ _ Hlt) Hrx Hry).
      * rewrite (Hinf sy). pose proof (valid_finite_range _ _ _ Hx).
        destruct sy, sx; cbn [SF2R] in *; lra.
      * exact (rnd_mono _ _ _ _ (Hg _ _ Hlt) Hrx Hry).
  - lra.
  - rewrite (Hzero s1), (Hzero s2). lra.
Qed.

End Rounding.

(** * Properties *)

(** ** Reading the format

    A few facts that link the boolean tests of the source to the
    constructors of [spec_float], through the specification of the
    primitive operations. *)

(** The constants of [builtin] are the doubles nearest to the decimal
    literals of the source. *)
Lemma builtin_literals :
  nearest_double 55 100 (W_BASE_LINE builtin) = true /\
  nearest_double 45 100 (W_BASE_SEASON_AVG builtin) = true /\
  nearest_double 3 100 (W_HOME_AWAY builtin) = true /\
  nearest_double 5 100 (W_GAME_TOTAL builtin) = true /\
  nearest_double 10 100 (W_TEAM_TOTAL builtin) = true /\
  nearest_double 12 100 (W_DEF_AST_ALLOWED builtin) = true /\
  nearest_double 6 100 (W_PACE builtin) = true /\
  nearest_double 8 100 (W_RECENT_FORM builtin) = true /\
  nearest_double 10 100 (W_MINUTES_TREND builtin) = true /\
  nearest_double 3 100 (W_BACK_TO_BACK builtin) = true /\
  nearest_double 14 100 (W_POTENTIAL_AST builtin) = true /\
  nearest_double 229 1 (LEAGUE_AVG_GAME_TOTAL builtin) = true /\
  nearest_double 1145 10 (LEAGUE_AVG_TEAM_TOTAL builtin) = true /\
  nearest_double 995 10 (LEAGUE_AVG_PACE builtin) = true /\
  nearest_double 25 1 (LEAGUE_AVG_AST_ALLOWED builtin) = true /\
  nearest_double 70 100 (MULT_MIN builtin) = true /\
  nearest_double 140 100 (MULT_MAX builtin) = true.
Proof. repeat split; vm_compute; reflexivity. Qed.

Lemma Prim2SF_zero : Prim2SF 0 = S754_zero false.
Proof. reflexivity. Qed.

Lemma Prim2SF_one : Prim2SF 1 = S754_finite false 4503599627370496 (-52).
Proof. reflexivity. Qed.

Lemma is_finite_SF (x : float) :
  is_finite x = true ->
  (exists s, Prim2SF x = S754_zero s) \/
  (exists s m e, Prim2SF x = S754_finite s m e).
Proof.
  unfold is_finite, is_nan, is_infinity.
  rewrite !eqb_spec, abs_spec.
  destruct (Prim2SF x) as [s|s| |s m e]; cbn; intros H;
    try discriminate; eauto.
  destruct s; discriminate.
Qed.

Lemma positive_finite_SF (x : float) :
  is_finite x = true -> (x <=? 0) = false ->
  exists m e, Prim2SF x = S754_finite false m e.
Proof.
  intros Hf Hle. rewrite leb_spec, Prim2SF_zero in Hle.
  destruct (is_finite_SF x Hf) as [[s E]|[s [m [e E]]]]; rewrite E in Hle.
  - discriminate.
  - destruct s; [discriminate | eauto].
Qed.

(** C's [==] on a non-zero number is equality of the two doubles. *)
Lemma feqb_finite_eq (x y : float) s m e :
  Prim2SF y = S754_finite s m e -> (x =? y) = true -> x = y.
Proof.
  intros Ey H. rewrite eqb_spec, Ey in H. apply Prim2SF_inj. rewrite Ey.
  unfold SFeqb in H.
  destruct (Prim2SF x) as [sx|sx| |sx mx ex]; cbn in H; try discriminate.
  - destruct s; discriminate.
  - destruct sx; discriminate.
  - assert (He : ex = e /\ mx = m).
    { destruct sx, s; try discriminate;
        (destruct (Z.compare ex e) eqn:Hc; try discriminate;
         destruct (Pos.compare_cont Eq mx m) eqn:Hm; try discriminate;
         split; [now apply Z.compare_eq | now apply Pos.compare_eq]). }
    destruct He as [-> ->].
    destruct sx, s; try discriminate; reflexivity.
Qed.

(** [x - x], [0 / x] for a finite positive [x]. *)
Lemma sub_self_finite (x : float) s m e :
  Prim2SF x = S754_finite s m e -> x - x = 0.
Proof.
  intros E. apply Prim2SF_inj. rewrite sub_spec, E, Prim2SF_zero.
  unfold SF64sub, SFsub. rewrite Z.sub_diag. reflexivity.
Qed.

Lemma zero_div_finite (x : float) m e :
  Prim2SF x = S754_finite false m e -> 0 / x = 0.
Proof.
  intros E. apply Prim2SF_inj. rewrite div_spec, E, Prim2SF_zero. reflexivity.
Qed.

(** The relative deviation of a finite positive baseline from itself. *)
Lemma rel_self (x y : float) :
  is_finite x = true -> (x <=? 0) = false -> (y =? x) = true ->
  (y - x) / x = 0.
Proof.
  intros Hf Hpos Heq.
  destruct (positive_finite_SF x Hf Hpos) as [m [e E]].
  rewrite (feqb_finite_eq y x _ _ _ E Heq).
  rewrite (sub_self_finite x _ _ _ E). exact (zero_div_finite x m e E).
Qed.

Lemma feqb_nonzero_eq (x y : float) :
  is_finite y = true -> is_zero y = false -> (x =? y) = true -> x = y.
Proof.
  intros Hf Hz H.
  destruct (is_finite_SF y Hf) as [[s E]|[s [m [e E]]]].
  - unfold is_zero in Hz. rewrite eqb_spec, E in Hz. vm_compute in Hz. discriminate.
  - exact (feqb_finite_eq x y s m e E H).
Qed.

(** ** Monotonicity of the primitive operations

    The four operations of a relative-deviation factor, each with one
    operand fixed, are non-decreasing in the other. *)

Section FloatOrder.
Local Open Scope R_scope.

Lemma valid_of_Prim2SF (x : float) s :
  Prim2SF x = s -> valid_binary s = true.
Proof. intros <-. apply Prim2SF_valid. Qed.

Lemma fsub_mono (c x y : float) sc mc ec :
  Prim2SF c = S754_finite sc mc ec ->
  (x <=? y)%float = true -> (x - c <=? y - c)%float = true.
Proof.
  intros Ec H. rewrite leb_spec in *.
  pose proof (Prim2SF_valid (x - c)) as Vx. pose proof (Prim2SF_valid (y - c)) as Vy.
  rewrite sub_spec, Ec in Vx, Vy. rewrite !sub_spec, !Ec.
  apply (rounds_monotone _ _ (SF64sub_rounds sc mc ec (valid_of_Prim2SF c _ Ec)));
    try assumption; try apply Prim2SF_valid.
  intros a b Hab. lra.
Qed.

Lemma fadd_mono (c x y : float) sc mc ec :
  Prim2SF c = S754_finite sc mc ec ->
  (x <=? y)%float = true -> (c + x <=? c + y)%float = true.
Proof.
  intros Ec H. rewrite leb_spec in *.
  pose proof (Prim2SF_valid (c + x)) as Vx. pose proof (Prim2SF_valid (c + y)) as Vy.
  rewrite add_spec, Ec in Vx, Vy. rewrite !add_spec, !Ec.
  apply (rounds_monotone _ _ (SF64add_rounds sc mc ec (valid_of_Prim2SF c _ Ec)));
    try assumption; try apply Prim2SF_valid.
  intros a b Hab. lra.
Qed.

Lemma fmul_mono (w x y : float) mw ew :
  Prim2SF w = S754_finite false mw ew ->
  (x <=? y)%float = true -> (x * w <=? y * w)%float = true.
Proof.
  intros Ew H. rewrite leb_spec in *.
  pose proof (Prim2SF_valid (x * w)) as Vx. pose proof (Prim2SF_valid (y * w)) as Vy.
  rewrite mul_spec, Ew in Vx, Vy. rewrite !mul_spec, !Ew.
  apply (rounds_monotone _ _ (SF64mul_rounds mw ew (valid_of_Prim2SF w _ Ew)));
    try assumption; try apply Prim2SF_valid.
  intros a b Hab. cbn [SF2R]. pose proof (F2R_pos mw ew). nra.
Qed.

Lemma fdiv_mono (c x y : float) mc ec :
  Prim2SF c = S754_finite false mc ec ->
  (x <=? y)%float = true -> (x / c <=? y / c)%float = true.
Proof.
  intros Ec H. rewrite leb_spec in *.
  pose proof (Prim2SF_valid (x / c)) as Vx. pose proof (Prim2SF_valid (y / c)) as Vy.
  rewrite div_spec, Ec in Vx, Vy. rewrite !div_spec, !Ec.
  apply (rounds_monotone _ _ (SF64div_rounds mc ec (valid_of_Prim2SF c _ Ec)));
    try assumption; try apply Prim2SF_valid.
  intros a b Hab. cbn [SF2R]. pose proof (F2R_pos mc ec) as Hc.
  unfold Rdiv. apply Rmult_lt_compat_r; [apply Rinv_0_lt_compat; exact Hc | exact Hab].
Qed.

(** The template of the source, [1.0 + ((x - base) / base) * weight], is
    non-decreasing in [x] for a finite positive base and weight. *)
Lemma relative_deviation_mono (base weight x y : float) mb eb mw ew :
  Prim2SF base = S754_finite false mb eb ->
  Prim2SF weight = S754_finite false mw ew ->
  (x <=? y)%float = true ->
  (1 + (x - base) / base * weight <=? 1 + (y - base) / base * weight)%float = true.
Proof.
  intros Eb Ew H.
  apply (fadd_mono 1%float _ _ _ _ _ Prim2SF_one).
  apply (fmul_mono _ _ _ _ _ Ew).
  apply (fdiv_mono _ _ _ _ _ Eb).
  apply (fsub_mono _ _ _ _ _ _ Eb). exact H.
Qed.

End FloatOrder.

Lemma strictly_positive_finite_SF (x : float) :
  is_finite x = true -> (0 <? x) = true ->
  exists m e, Prim2SF x = S754_finite false m e.
Proof.
  intros Hf Hlt. rewrite ltb_spec, Prim2SF_zero in Hlt.
  destruct (is_finite_SF x Hf) as [[s E]|[s [m [e E]]]]; rewrite E in Hlt.
  - discriminate.
  - destruct s; [discriminate | eauto].
Qed.

Lemma strictly_positive_not_le (x : float) :
  (0 <? x) = true -> (x <=? 0) = false.
Proof.
  rewrite ltb_spec, leb_spec, Prim2SF_zero. unfold SFltb, SFleb.
  destruct (Prim2SF x) as [s|[|]| |[|] m e]; cbn; intros H;
    try discriminate; reflexivity.
Qed.

Lemma fltb_leb (x y : float) : (x <? y) = true -> (x <=? y) = true.
Proof.
  rewrite ltb_spec, leb_spec. unfold SFltb, SFleb.
  destruct (SFcompare (Prim2SF x) (Prim2SF y)) as [[| |]|]; intros H;
    try discriminate; reflexivity.
Qed.

(** ** Finite doubles stay finite through a relative deviation *)

Section FloatRange.
Local Open Scope R_scope.

Lemma Prim2SF_max_double :
  Prim2SF max_double = S754_finite false 9007199254740991 971.
Proof. reflexivity. Qed.

Lemma Prim2SF_min_double :
  Prim2SF (- max_double) = S754_finite true 9007199254740991 971.
Proof. reflexivity. Qed.

Lemma valid_finite_le_max s m e :
  valid_binary (S754_finite s m e) = true ->
  F2R (Z.pos m) e <= F2R 9007199254740991 971.
Proof.
  intros H. destruct (valid_finite_inv _ _ _ H) as [Hc Hb].
  pose proof (digits2_pos_bounds m) as [_ Hu].
  assert (Hm : (Z.pos m < 2 ^ 53)%Z).
  { apply Z.lt_le_trans with (1 := Hu). apply Z.pow_le_mono_r; lia. }
  apply Rle_trans with (F2R 9007199254740991 e).
  - apply F2R_le. change (2 ^ 53)%Z with 9007199254740992%Z in Hm. lia.
  - unfold F2R. apply Rmult_le_compat_l; [apply IZR_le; lia | apply bpow_le; lia].
Qed.

Lemma finite_range (x : float) :
  is_finite x = true ->
  (- max_double <=? x)%float = true /\ (x <=? max_double)%float = true.
Proof.
  intros Hf. rewrite !leb_spec, Prim2SF_max_double, Prim2SF_min_double.
  pose proof (Prim2SF_valid x) as Vx.
  pose proof (F2R_pos 9007199254740991 971) as Hmax.
  destruct (is_finite_SF x Hf) as [[s E]|[s [m [e E]]]]; rewrite E in *.
  - split; apply R_SFleb; try reflexivity; cbn [SF2R]; lra.
  - pose proof (valid_finite_le_max s m e Vx) as Hle.
    pose proof (F2R_pos m e) as Hpos.
    split; apply R_SFleb; try reflexivity; try exact Vx;
      destruct s; cbn [SF2R]; lra.
Qed.

End FloatRange.

(** A double between two finite doubles is a zero or a finite number. *)
Lemma between_finite_SF (lo hi r : float) :
  is_finite lo = true -> is_finite hi = true ->
  (lo <=? r) = true -> (r <=? hi) = true ->
  (exists s, Prim2SF r = S754_zero s) \/
  (exists s m e, Prim2SF r = S754_finite s m e).
Proof.
  intros Hlo Hhi H1 H2. rewrite leb_spec in H1, H2. unfold SFleb in H1, H2.
  destruct (Prim2SF r) as [s|s| |s m e]; eauto; exfalso.
  - destruct (is_finite_SF lo Hlo) as [[s' E]|[s' [m' [e' E]]]];
    destruct (is_finite_SF hi Hhi) as [[s'' E']|[s'' [m'' [e'' E']]]];
    rewrite E in H1; rewrite E' in H2; destruct s; discriminate.
  - destruct (Prim2SF lo); discriminate.
Qed.

(** The relative deviation of a finite observation stays finite, as soon
    as it does at the two ends of the range. *)
Lemma relative_deviation_finite (base x : float) mb eb :
  Prim2SF base = S754_finite false mb eb ->
  is_finite ((- max_double - base) / base) = true ->
  is_finite ((max_double - base) / base) = true ->
  is_finite x = true ->
  (exists s, Prim2SF ((x - base) / base) = S754_zero s) \/
  (exists s m e, Prim2SF ((x - base) / base) = S754_finite s m e).
Proof.
  intros Eb Hlo Hhi Hx. destruct (finite_range x Hx) as [H1 H2].
  apply (between_finite_SF _ _ _ Hlo Hhi).
  - apply (fdiv_mono _ _ _ _ _ Eb), (fsub_mono _ _ _ _ _ _ Eb). exact H1.
  - apply (fdiv_mono _ _ _ _ _ Eb), (fsub_mono _ _ _ _ _ _ Eb). exact H2.
Qed.

(** ** A weight of zero *)

Lemma feqb_zero_SF (w : float) :
  (w =? 0) = true -> exists s, Prim2SF w = S754_zero s.
Proof.
  rewrite eqb_spec, Prim2SF_zero. unfold SFeqb.
  destruct (Prim2SF w) as [s|[|]| |[|] m e]; cbn; intros H;
    try discriminate; eauto.
Qed.

Lemma fadd_one_zero (z : float) s : Prim2SF z = S754_zero s -> 1 + z = 1.
Proof.
  intros E. apply Prim2SF_inj. rewrite add_spec, E, Prim2SF_one. reflexivity.
Qed.

Lemma fsub_one_zero (z : float) s : Prim2SF z = S754_zero s -> 1 - z = 1.
Proof.
  intros E. apply Prim2SF_inj. rewrite sub_spec, E, Prim2SF_one. reflexivity.
Qed.

Lemma fmul_finite_zero (r w : float) sw :
  (exists s, Prim2SF r = S754_zero s) \/
  (exists s m e, Prim2SF r = S754_finite s m e) ->
  Prim2SF w = S754_zero sw ->
  exists s, Prim2SF (r * w) = S754_zero s.
Proof.
  intros [[s E]|[s [m [e E]]]] Ew; rewrite mul_spec, E, Ew; cbn; eauto.
Qed.

Lemma zero_weight_relative_deviation (base weight x : float) mb eb :
  Prim2SF base = S754_finite false mb eb ->
  is_finite ((- max_double - base) / base) = true ->
  is_finite ((max_double - base) / base) = true ->
  (weight =? 0) = true -> is_finite x = true ->
  1 + (x - base) / base * weight = 1.
Proof.
  intros Eb Hlo Hhi Hw Hx. destruct (feqb_zero_SF weight Hw) as [sw Ew].
  destruct (fmul_finite_zero _ _ _
              (relative_deviation_finite base x mb eb Eb Hlo Hhi Hx) Ew)
    as [s Ez].
  exact (fadd_one_zero _ s Ez).
Qed.

(** [(0 - s) / s] is exactly [-1] for a finite positive [s]. *)
Lemma neg_self_ratio (s : float) m e :
  Prim2SF s = S754_finite false m e -> (0 - s) / s = -1.
Proof.
  intros E. apply Prim2SF_inj. rewrite div_spec, sub_spec, E, Prim2SF_zero.
  unfold SF64div, SF64sub. cbn [SFsub negb SFdiv].
  assert (Hcore : SFdiv_core_binary prec emax (Z.pos m) e (Z.pos m) e
                  = (9007199254740992, -53, loc_Exact)%Z).
  { unfold SFdiv_core_binary. rewrite !Z.sub_diag.
    change (Z.min (fexp prec emax 0) 0) with (-53)%Z.
    change (0 - -53)%Z with 53%Z. cbv iota.
    rewrite Z.shiftl_mul_pow2 by lia.
    pose proof (Z_div_mod (Z.pos m * 2 ^ 53) (Z.pos m) ltac:(lia)) as H.
    destruct (Z.div_eucl (Z.pos m * 2 ^ 53) (Z.pos m)) as [q r].
    destruct H as [H1 H2].
    assert (Hq : q = (Z.pos m * 2 ^ 53 / Z.pos m)%Z)
      by (apply (Z.div_unique _ _ q r); [lia | exact H1]).
    rewrite Z.mul_comm, Z.div_mul in Hq by lia. subst q.
    assert (Hr : r = 0%Z) by lia. subst r.
    unfold new_location, new_location_even, new_location_odd.
    destruct (Z.even (Z.pos m)); reflexivity. }
  rewrite Hcore. reflexivity.
Qed.


(** ** Home/away factor *)

(** C9.  With the built-in weight [W_HOME_AWAY = 0.03] the home/away factor
    is the double 1.03 when [is_home] is true and the double 0.97 otherwise;
    it never compares equal to 1.0, so it is never neutral. *)
Theorem m_homeaway_builtin_never_neutral (i : Inputs) :
  m_homeaway builtin i = (if truthy (is_home i) then 1.03 else 0.97) /\
  (m_homeaway builtin i =? 1.0) = false /\
  m_homeaway builtin i <> 1.0.
Proof.
  unfold m_homeaway. destruct (truthy (is_home i)).
  - repeat split; try reflexivity.
    intro H. apply (f_equal (fun x => x =? 1.0)) in H. vm_compute in H. discriminate.
  - repeat split; try reflexivity.
    intro H. apply (f_equal (fun x => x =? 1.0)) in H. vm_compute in H. discriminate.
Qed.

(** ** Neutral context *)

Lemma m_game_total_neutral (i : Inputs) :
  (game_total_ou i =? LEAGUE_AVG_GAME_TOTAL builtin) = true ->
  m_game_total builtin i = 1.0.
Proof.
  intros H. unfold m_game_total.
  rewrite (feqb_nonzero_eq _ (LEAGUE_AVG_GAME_TOTAL builtin) eq_refl eq_refl H).
  reflexivity.
Qed.

Lemma m_team_total_neutral (i : Inputs) :
  (team_total_ou i =? LEAGUE_AVG_TEAM_TOTAL builtin) = true ->
  m_team_total builtin i = 1.0.
Proof.
  intros H. unfold m_team_total.
  rewrite (feqb_nonzero_eq _ (LEAGUE_AVG_TEAM_TOTAL builtin) eq_refl eq_refl H).
  reflexivity.
Qed.

Lemma m_def_ast_neutral (i : Inputs) :
  (opp_ast_allowed i =? LEAGUE_AVG_AST_ALLOWED builtin) = true ->
  m_def_ast builtin i = 1.0.
Proof.
  intros H. unfold m_def_ast.
  rewrite (feqb_nonzero_eq _ (LEAGUE_AVG_AST_ALLOWED builtin) eq_refl eq_refl H).
  reflexivity.
Qed.

Lemma m_pace_neutral (i : Inputs) :
  (matchup_pace i =? LEAGUE_AVG_PACE builtin) = true ->
  m_pace builtin i = 1.0.
Proof.
  intros H. unfold m_pace.
  rewrite (feqb_nonzero_eq _ (LEAGUE_AVG_PACE builtin) eq_refl eq_refl H).
  reflexivity.
Qed.

Lemma m_recent_neutral (i : Inputs) :
  is_finite (season_avg_ast i) = true ->
  (recent_avg_ast i =? season_avg_ast i) = true ->
  m_recent builtin i = 1.0.
Proof.
  intros Hf H. unfold m_recent.
  destruct (season_avg_ast i <=? 0) eqn:Hs.
  - rewrite orb_true_r. reflexivity.
  - rewrite orb_false_r. cbn -[PrimFloat.eqb]. 
    rewrite (rel_self _ _ Hf Hs H). reflexivity.
Qed.

Lemma m_minutes_neutral (i : Inputs) :
  is_finite (season_avg_minutes i) = true ->
  (expected_minutes i =? season_avg_minutes i) = true ->
  m_minutes builtin i = 1.0.
Proof.
  intros Hf H. unfold m_minutes.
  destruct (season_avg_minutes i <=? 0) eqn:Hs.
  - rewrite orb_true_r. reflexivity.
  - rewrite orb_false_r. cbn -[PrimFloat.eqb].
    rewrite (rel_self _ _ Hf Hs H). reflexivity.
Qed.

Lemma m_potential_neutral (i : Inputs) :
  is_finite (season_avg_ast i) = true ->
  (last5_potential_ast i * last5_conversion i =? season_avg_ast i) = true ->
  m_potential_assists builtin i = 1.0.
Proof.
  intros Hf H. unfold m_potential_assists.
  destruct (season_avg_ast i <=? 0) eqn:Hs.
  - rewrite orb_true_r. reflexivity.
  - rewrite orb_false_r. cbn -[PrimFloat.eqb].
    rewrite (rel_self _ _ Hf Hs H). reflexivity.
Qed.

Lemma m_b2b_rested (c : Config) (i : Inputs) :
  truthy (is_back_to_back i) = false -> m_b2b c i = 1.0.
Proof. intros H. unfold m_b2b. rewrite H. reflexivity. Qed.

(** C1 (as stated, refuted).  An input whose every contextual field is
    exactly neutral, evaluated with the built-in constants: the uncapped
    multiplier is 1.03, not 1.0, and the projection differs from the base. *)
Lemma neutral_context_uncapped_is_not_one :
  neutral_context builtin exactly_neutral /\
  (o_uncapped_multiplier (project builtin exactly_neutral) =? 1.0) = false /\
  (o_projection (project builtin exactly_neutral)
     =? o_base_assists (project builtin exactly_neutral)) = false /\
  ~ (o_uncapped_multiplier (project builtin exactly_neutral) = 1.0 /\
     o_projection (project builtin exactly_neutral)
       = o_base_assists (project builtin exactly_neutral)).
Proof.
  repeat split; try reflexivity.
  intros [H _]. apply (f_equal (fun x => x =? 1.0)) in H.
  vm_compute in H. discriminate.
Qed.

(** C1 (amended).  In a neutral context (opponent-allowed rate included) with
    finite season averages, every factor but the home/away one is exactly
    1.0: the uncapped and the final multiplier both equal the home/away
    factor (1.03 at home, 0.97 away) and the projection is the base value
    times that factor. *)
Theorem neutral_context_leaves_homeaway (i : Inputs) :
  neutral_context builtin i ->
  is_finite (season_avg_ast i) = true ->
  is_finite (season_avg_minutes i) = true ->
  o_uncapped_multiplier (project builtin i) = m_homeaway builtin i /\
  o_final_multiplier (project builtin i) = m_homeaway builtin i /\
  o_projection (project builtin i)
    = o_base_assists (project builtin i) * m_homeaway builtin i /\
  m_homeaway builtin i = (if truthy (is_home i) then 1.03 else 0.97) /\
  factors_but_homeaway (project builtin i)
    = (1.0 :: 1.0 :: 1.0 :: 1.0 :: 1.0 :: 1.0 :: 1.0 :: 1.0 :: nil)%list.
Proof.
  intros (Hgt & Htt & Hda & Hpa & Hre & Hmi & Hbb & Hpo) Hfs Hfm.
  unfold project, factors_but_homeaway, factors; cbn [o_uncapped_multiplier
    o_final_multiplier o_projection o_base_assists o_m_homeaway o_m_game_total
    o_m_team_total o_m_def_ast o_m_pace o_m_recent o_m_minutes o_m_b2b
    o_m_potential List.tl].
  rewrite (m_game_total_neutral i Hgt), (m_team_total_neutral i Htt),
    (m_def_ast_neutral i Hda), (m_pace_neutral i Hpa),
    (m_recent_neutral i Hfs Hre), (m_minutes_neutral i Hfm Hmi),
    (m_b2b_rested builtin i Hbb), (m_potential_neutral i Hfs Hpo).
  unfold m_homeaway. destruct (truthy (is_home i)); repeat split; reflexivity.
Qed.

Lemma neutral_context_leaves_homeaway_witness :
  o_uncapped_multiplier (project builtin exactly_neutral) = 1.03 /\
  o_projection (project builtin exactly_neutral) = 5.0 * 1.03.
Proof.
  assert (Hn : neutral_context builtin exactly_neutral)
    by (repeat split; reflexivity).
  destruct (neutral_context_leaves_homeaway exactly_neutral Hn eq_refl eq_refl)
    as (Hu & _ & Hp & _).
  split; [exact Hu | exact Hp].
Defined.

(** ** The cap *)

Lemma SFeqb_refl (x : spec_float) : SFis_nan x = false -> SFeqb x x = true.
Proof.
  unfold SFeqb. destruct x as [s|[|]| |[|] m e]; cbn; intros H;
    try discriminate; try reflexivity;
    rewrite Z.compare_refl;
    change (Pos.compare_cont Eq m m) with (Pos.compare m m);
    rewrite Pos.compare_refl; reflexivity.
Qed.

Lemma is_nan_SF (x : float) : is_nan x = SFis_nan (Prim2SF x).
Proof.
  unfold is_nan. rewrite eqb_spec.
  destruct (SFis_nan (Prim2SF x)) eqn:E.
  - destruct (Prim2SF x); try discriminate. reflexivity.
  - rewrite (SFeqb_refl _ E). reflexivity.
Qed.

Lemma fleb_not_nan (x y : float) :
  (x <=? y) = true -> is_nan x = false /\ is_nan y = false.
Proof.
  rewrite leb_spec, !is_nan_SF. unfold SFleb.
  destruct (Prim2SF x), (Prim2SF y); cbn; intros H; try discriminate; auto.
Qed.

Lemma fleb_total (x y : float) :
  is_nan x = false -> is_nan y = false -> (x <? y) = false -> (y <=? x) = true.
Proof.
  rewrite !is_nan_SF, ltb_spec, leb_spec. intros Hx Hy H.
  pose proof (SFcompare_R _ _ (Prim2SF_valid x) (Prim2SF_valid y)) as Hc.
  unfold SFltb in H.
  apply R_SFleb; try apply Prim2SF_valid; try assumption.
  destruct (SFcompare (Prim2SF x) (Prim2SF y)) as [[| |]|].
  - destruct Hc as [->|(s1 & s2 & -> & ->)]; cbn [SF2R]; apply Rle_refl.
  - discriminate.
  - apply Rlt_le. exact Hc.
  - destruct Hc; congruence.
Qed.

Lemma fleb_refl (x : float) : is_nan x = false -> (x <=? x) = true.
Proof.
  rewrite is_nan_SF, leb_spec. intros H.
  apply R_SFleb; try apply Prim2SF_valid; try assumption. apply Rle_refl.
Qed.

(** [clamp] does cap every number; only a NaN escapes it. *)
Lemma clamp_within (x lo hi : float) :
  is_nan x = false -> (lo <=? hi) = true -> within lo hi (clamp x lo hi) = true.
Proof.
  intros Hx Hle. destruct (fleb_not_nan _ _ Hle) as [Hlo Hhi].
  unfold clamp, within.
  destruct (x <? lo) eqn:H1.
  - rewrite (fleb_refl lo Hlo), Hle. reflexivity.
  - destruct (hi <? x) eqn:H2.
    + rewrite Hle, (fleb_refl hi Hhi). reflexivity.
    + rewrite (fleb_total x lo Hx Hlo H1), (fleb_total hi x Hhi Hx H2).
      reflexivity.
Qed.

Lemma final_multiplier_capped_unless_nan (c : Config) (i : Inputs) :
  (MULT_MIN c <=? MULT_MAX c) = true ->
  is_nan (o_uncapped_multiplier (project c i)) = false ->
  within (MULT_MIN c) (MULT_MAX c) (o_final_multiplier (project c i)) = true.
Proof. intros Hle Hn. exact (clamp_within _ _ _ Hn Hle). Qed.

(** C2.  The multiplier is meant to be capped to [[MULT_MIN, MULT_MAX]], but
    a NaN passes through [clamp] unchanged.  With finite inputs the
    recent-form factor can be exactly 0 while the minutes factor overflows to
    infinity; their product is NaN, and so is the final multiplier.  The
    same happens when an input is itself a NaN. *)
Theorem final_multiplier_escapes_cap :
  finite_inputs extreme_finite = true /\
  o_m_recent (project builtin extreme_finite) = 0 /\
  o_m_minutes (project builtin extreme_finite) = infinity /\
  is_nan (o_uncapped_multiplier (project builtin extreme_finite)) = true /\
  is_nan (o_final_multiplier (project builtin extreme_finite)) = true /\
  within (MULT_MIN builtin) (MULT_MAX builtin)
    (o_final_multiplier (project builtin extreme_finite)) = false /\
  within (MULT_MIN builtin) (MULT_MAX builtin)
    (o_final_multiplier
       (project builtin (with_game_total_ou nan example_home))) = false.
Proof. repeat split; reflexivity. Qed.

(** ** Guards of the divisions *)

(** C3.  The game-total and team-total factors divide by their league
    average without the guard that the opponent-allowed and pace factors
    have: with a league average of 0 the former yield NaN or infinity, the
    latter 1.0.  Infinity and NaN also reach the output with the built-in
    constants and finite inputs, by overflow. *)
Theorem league_total_division_unguarded :
  let c_gt := with_LEAGUE_AVG_GAME_TOTAL 0 builtin in
  let c_tt := with_LEAGUE_AVG_TEAM_TOTAL 0 builtin in
  (* 0 / 0 *)
  is_nan (m_game_total c_gt (with_game_total_ou 0 example_home)) = true /\
  is_nan (m_team_total c_tt (with_team_total_ou 0 example_home)) = true /\
  is_nan (o_projection (project c_gt (with_game_total_ou 0 example_home))) = true /\
  (* 229 / 0 and 114.5 / 0 *)
  m_game_total c_gt example_home = infinity /\
  m_team_total c_tt example_home = infinity /\
  (* the guarded siblings *)
  (forall i, m_def_ast (with_LEAGUE_AVG_AST_ALLOWED 0 builtin) i = 1.0) /\
  (forall i, m_pace (with_LEAGUE_AVG_PACE 0 builtin) i = 1.0) /\
  (* overflow with the built-in constants *)
  finite_inputs extreme_finite = true /\
  o_m_minutes (project builtin extreme_finite) = infinity /\
  is_nan (o_projection (project builtin extreme_finite)) = true.
Proof. repeat split; reflexivity. Qed.

(** ** End-to-end example *)

(** C4 (as stated, refuted).  On the example of the specification the
    home/away factor is 1.03 and the projection about 5.15: the announced
    outcome fails at a tolerance of 0.01, and even of 0.025, far coarser than
    the four and two decimals of the report. *)
Lemma example_home_is_not_neutral :
  announced_example 0.01 (project builtin example_home) = false /\
  announced_example 0.025 (project builtin example_home) = false /\
  approx 0.025 (o_m_homeaway (project builtin example_home)) 1.0 = false /\
  approx 0.025 (o_projection (project builtin example_home)) 5.0 = false.
Proof. repeat split; reflexivity. Qed.

(** C4 (amended).  On that example the base value is exactly 5.0, the
    home/away factor is 1.03, the potential-conversion factor is about
    1.0000112, the seven other factors are exactly 1.0, the multiplier is
    about 1.0300115 (uncapped and capped) and the projection about 5.15. *)
Theorem example_home_projection :
  project builtin example_home =
    {| o_base_assists := 5.0;
       o_m_homeaway := 1.03;
       o_m_game_total := 1.0;
       o_m_team_total := 1.0;
       o_m_def_ast := 1.0;
       o_m_pace := 1.0;
       o_m_recent := 1.0;
       o_m_minutes := 1.0;
       o_m_b2b := 1.0;
       o_m_potential := 1.0000112000000001;
       o_uncapped_multiplier := 1.0300115360000002;
       o_final_multiplier := 1.0300115360000002;
       o_projection := 5.1500576800000006 |} /\
  approx 1e-7 (o_m_potential (project builtin example_home)) 1.0000112 = true /\
  approx 1e-7 (o_final_multiplier (project builtin example_home)) 1.0300115 = true /\
  approx 1e-4 (o_projection (project builtin example_home)) 5.15 = true.
Proof. repeat split; reflexivity. Qed.

(** ** Non-positive season average *)

(** An unbounded observed value is never neutral: when neither guard of the
    template fires, the factor at [+infinity] is infinite or NaN. *)
Lemma unbounded_deviation_not_one (base weight : float) :
  (weight =? 0) = false -> (base <=? 0) = false ->
  1 + (infinity - base) / base * weight <> 1.
Proof.
  intros Hw Hb H. apply (f_equal Prim2SF) in H.
  rewrite add_spec, mul_spec, div_spec, sub_spec, Prim2SF_one in H.
  rewrite eqb_spec, Prim2SF_zero in Hw. rewrite leb_spec, Prim2SF_zero in Hb.
  change (Prim2SF infinity) with (S754_infinity false) in H.
  destruct (Prim2SF base) as [sb|[|]| |[|] mb eb];
    destruct (Prim2SF weight) as [sw|[|]| |[|] mw ew];
    try discriminate Hw; try discriminate Hb; try discriminate H.
Qed.

(** C6 (as stated, refuted).  The minutes factor is exactly 1.0 for a
    player whose expected minutes equal the season minutes, although the
    minutes baseline is positive: being 1.0 does not require
    [season_avg_minutes <= 0]. *)
Lemma m_minutes_neutral_with_positive_baseline :
  let i := with_expected_minutes 10.0 no_assists_more_minutes in
  (season_avg_ast i <=? 0) = true /\
  (season_avg_minutes i <=? 0) = false /\
  m_minutes builtin i = 1.0 /\
  ~ (forall j : Inputs,
       m_minutes builtin j = 1.0 -> (season_avg_minutes j <=? 0) = true).
Proof.
  repeat split; try reflexivity.
  intros H.
  specialize (H (with_expected_minutes 10.0 no_assists_more_minutes) eq_refl).
  vm_compute in H. discriminate H.
Qed.

(** C6 (amended).  A season average [<= 0] forces the recent-form and the
    potential-conversion factors to exactly 1.0.  The minutes factor never
    reads the season average; it is 1.0 whatever the expected minutes exactly
    when its own guard fires, [season_avg_minutes <= 0] (or a minutes weight
    of 0).  With the built-in weight and any finite positive minutes baseline
    it is not forced: it is 0.9 for expected minutes of 0. *)
Theorem season_baselines_force_neutral (c : Config) (i : Inputs) :
  ((season_avg_ast i <=? 0) = true ->
   m_recent c i = 1.0 /\ m_potential_assists c i = 1.0) /\
  (forall s, m_minutes c (with_season_avg_ast s i) = m_minutes c i) /\
  ((forall e, m_minutes c (with_expected_minutes e i) = 1.0) <->
   ((W_MINUTES_TREND c =? 0) || (season_avg_minutes i <=? 0)) = true) /\
  (W_MINUTES_TREND c = W_MINUTES_TREND builtin ->
   is_finite (season_avg_minutes i) = true ->
   (season_avg_minutes i <=? 0) = false ->
   m_minutes c (with_expected_minutes 0 i) = 0.9).
Proof.
  split; [|split; [|split]].
  - intros H. unfold m_recent, m_potential_assists.
    rewrite H, !orb_true_r. split; reflexivity.
  - reflexivity.
  - unfold m_minutes. cbn [season_avg_minutes expected_minutes with_expected_minutes].
    split.
    + intros H.
      destruct (W_MINUTES_TREND c =? 0) eqn:Hw; [reflexivity|].
      destruct (season_avg_minutes i <=? 0) eqn:Hb; [reflexivity|].
      exfalso. specialize (H infinity). cbn [orb] in H.
      exact (unbounded_deviation_not_one _ _ Hw Hb H).
    + intros G e. rewrite G. reflexivity.
  - intros Hw Hf Hb. unfold m_minutes.
    cbn [season_avg_minutes expected_minutes with_expected_minutes].
    rewrite Hw, Hb.
    destruct (positive_finite_SF _ Hf Hb) as (m & e & E).
    change (W_MINUTES_TREND builtin =? 0) with false. cbn [orb].
    rewrite (neg_self_ratio _ _ _ E). reflexivity.
Qed.

Lemma season_baselines_force_neutral_witness :
  (m_recent builtin no_assists_more_minutes = 1.0 /\
   m_potential_assists builtin no_assists_more_minutes = 1.0) /\
  m_minutes builtin (with_expected_minutes 0 no_assists_more_minutes) = 0.9 /\
  m_minutes builtin
    (with_expected_minutes 36.0
       (with_season_avg_minutes 0 no_assists_more_minutes)) = 1.0.
Proof.
  split; [|split].
  - exact (proj1 (season_baselines_force_neutral builtin no_assists_more_minutes)
             eq_refl).
  - exact (proj2 (proj2 (proj2
             (season_baselines_force_neutral builtin no_assists_more_minutes)))
             eq_refl eq_refl eq_refl).
  - exact (proj2 (proj1 (proj2 (proj2
             (season_baselines_force_neutral builtin
                (with_season_avg_minutes 0 no_assists_more_minutes)))))
             eq_refl 36.0).
Defined.

(** ** Determinism and frame *)

(** C8.  [project] is a function of the configuration and of the numeric and
    boolean fields only: two records that agree on them yield the same output
    record, whatever their player names. *)
Theorem project_ignores_player_name (c : Config) (i j : Inputs) :
  same_numeric i j -> project c i = project c j.
Proof.
  destruct i, j; unfold same_numeric; cbn.
  intros (-> & -> & -> & -> & -> & -> & -> & -> & -> & -> & -> & -> & ->).
  reflexivity.
Qed.

Lemma project_ignores_player_name_witness :
  project builtin (with_player_name "someone else" example_home)
    = project builtin example_home.
Proof.
  apply project_ignores_player_name.
  repeat split; reflexivity.
Defined.

(** C10.  Changing [is_home] alone leaves the base value and the eight
    factors other than the home/away one unchanged. *)
Theorem project_frame_is_home (c : Config) (i : Inputs) (h : Z) :
  o_base_assists (project c (with_is_home h i)) = o_base_assists (project c i) /\
  factors_but_homeaway (project c (with_is_home h i))
    = factors_but_homeaway (project c i).
Proof. split; reflexivity. Qed.

(** ** A weight of zero *)

(** A double that is not finite is an infinity or a NaN. *)
Lemma not_finite_SF (x : float) :
  is_finite x = false ->
  (exists s, Prim2SF x = S754_infinity s) \/ Prim2SF x = S754_nan.
Proof.
  unfold is_finite, is_infinity. rewrite is_nan_SF, eqb_spec, abs_spec.
  destruct (Prim2SF x) as [s|s| |s m e]; cbn; intros H;
    try discriminate; eauto.
Qed.

(** With a weight of zero, the deviation of an infinite or NaN observed
    value is not cancelled: [rel] is infinite or NaN, [rel * 0.0] is NaN. *)
Lemma zero_weight_deviation_nan (base weight x : float) :
  (weight =? 0) = true -> is_finite x = false ->
  is_nan (1 + (x - base) / base * weight) = true.
Proof.
  intros Hw Hx. destruct (feqb_zero_SF _ Hw) as [sw Ew].
  rewrite is_nan_SF, add_spec, mul_spec, div_spec, sub_spec, Ew, Prim2SF_one.
  destruct sw;
    (destruct (not_finite_SF _ Hx) as [[[|] Ex]|Ex]; rewrite Ex;
     destruct (Prim2SF base) as [[|]|[|]| |[|] mb eb]; reflexivity).
Qed.

(** C5.  The recent-form, minutes and potential-conversion factors test
    [weight == 0.0] and return 1.0.  The game-total, team-total,
    opponent-allowed and pace factors have no such test: they compute
    [1.0 + rel * weight] and count on [rel * 0.0] being 0, which fails as
    soon as the observed value is infinite or NaN.  For every configuration
    with the weight at 0 the factor is then NaN, not 1.0. *)
Theorem zero_weight_league_factors_unguarded (c : Config) (i : Inputs) :
  ((W_GAME_TOTAL c =? 0) = true -> is_finite (game_total_ou i) = false ->
   is_nan (m_game_total c i) = true) /\
  ((W_TEAM_TOTAL c =? 0) = true -> is_finite (team_total_ou i) = false ->
   is_nan (m_team_total c i) = true) /\
  ((W_DEF_AST_ALLOWED c =? 0) = true ->
   (LEAGUE_AVG_AST_ALLOWED c <=? 0) = false ->
   is_finite (opp_ast_allowed i) = false -> is_nan (m_def_ast c i) = true) /\
  ((W_PACE c =? 0) = true ->
   (LEAGUE_AVG_PACE c <=? 0) = false ->
   is_finite (matchup_pace i) = false -> is_nan (m_pace c i) = true) /\
  (* the guarded siblings *)
  ((W_RECENT_FORM c =? 0) = true -> m_recent c i = 1.0) /\
  ((W_MINUTES_TREND c =? 0) = true -> m_minutes c i = 1.0) /\
  ((W_POTENTIAL_AST c =? 0) = true -> m_potential_assists c i = 1.0).
Proof.
  repeat split.
  - intros Hw Hx. exact (zero_weight_deviation_nan _ _ _ Hw Hx).
  - intros Hw Hx. exact (zero_weight_deviation_nan _ _ _ Hw Hx).
  - intros Hw Hb Hx. unfold m_def_ast. rewrite Hb.
    exact (zero_weight_deviation_nan _ _ _ Hw Hx).
  - intros Hw Hb Hx. unfold m_pace. rewrite Hb.
    exact (zero_weight_deviation_nan _ _ _ Hw Hx).
  - intros Hw. unfold m_recent. rewrite Hw. reflexivity.
  - intros Hw. unfold m_minutes. rewrite Hw. reflexivity.
  - intros Hw. unfold m_potential_assists. rewrite Hw. reflexivity.
Qed.

Lemma zero_weight_league_factors_unguarded_witness :
  is_nan (m_game_total (with_W_GAME_TOTAL 0 builtin)
            (with_game_total_ou infinity example_home)) = true /\
  is_nan (m_team_total (with_W_TEAM_TOTAL 0 builtin)
            (with_team_total_ou neg_infinity example_home)) = true /\
  is_nan (m_def_ast (with_W_DEF_AST_ALLOWED 0 builtin)
            (with_opp_ast_allowed infinity example_home)) = true /\
  is_nan (m_pace (with_W_PACE 0 builtin)
            (with_matchup_pace nan example_home)) = true /\
  m_recent (with_W_RECENT_FORM 0 builtin)
    (with_recent_avg_ast infinity example_home) = 1.0.
Proof.
  split; [|split; [|split; [|split]]].
  - exact (proj1 (zero_weight_league_factors_unguarded
                    (with_W_GAME_TOTAL 0 builtin)
                    (with_game_total_ou infinity example_home))
             eq_refl eq_refl).
  - exact (proj1 (proj2 (zero_weight_league_factors_unguarded
                    (with_W_TEAM_TOTAL 0 builtin)
                    (with_team_total_ou neg_infinity example_home)))
             eq_refl eq_refl).
  - exact (proj1 (proj2 (proj2 (zero_weight_league_factors_unguarded
                    (with_W_DEF_AST_ALLOWED 0 builtin)
                    (with_opp_ast_allowed infinity example_home))))
             eq_refl eq_refl eq_refl).
  - exact (proj1 (proj2 (proj2 (proj2 (zero_weight_league_factors_unguarded
                    (with_W_PACE 0 builtin)
                    (with_matchup_pace nan example_home)))))
             eq_refl eq_refl eq_refl).
  - exact (proj1 (proj2 (proj2 (proj2 (proj2 (zero_weight_league_factors_unguarded
                    (with_W_RECENT_FORM 0 builtin)
                    (with_recent_avg_ast infinity example_home))))))
             eq_refl).
Defined.

(** The failing input of C5 evaluated: with the game-total weight set to 0
    and an infinite over/under line the factor is [1.0 + inf * 0.0], a NaN,
    not 1.0. *)
Lemma zero_weight_game_total_is_nan :
  let c := with_W_GAME_TOTAL 0 builtin in
  let i := with_game_total_ou infinity example_home in
  (W_GAME_TOTAL c =? 0) = true /\
  is_nan (m_game_total c i) = true /\
  (m_game_total c i =? 1.0) = false /\
  m_game_total c i <> 1.0.
Proof.
  repeat split; try reflexivity.
  intro H. apply (f_equal (fun x => x =? 1.0)) in H. vm_compute in H. discriminate.
Qed.

Lemma zero_weight_not_positive (w : float) : (w =? 0) = true -> (0 <? w) = false.
Proof.
  intros H. destruct (feqb_zero_SF w H) as [s E].
  rewrite ltb_spec, E, Prim2SF_zero. reflexivity.
Qed.

(** Where the weight of 0 does its work: the home/away, recent-form,
    minutes, back-to-back and potential-conversion factors are exactly 1.0
    whatever the inputs; the game-total, team-total, opponent-allowed and
    pace factors (league baselines at their built-in values) are 1.0 when
    the observed input is a finite number. *)
Theorem zero_weight_neutralises (c : Config) (i : Inputs) :
  ((W_HOME_AWAY c =? 0) = true -> m_homeaway c i = 1.0) /\
  ((W_GAME_TOTAL c =? 0) = true ->
   LEAGUE_AVG_GAME_TOTAL c = LEAGUE_AVG_GAME_TOTAL builtin ->
   is_finite (game_total_ou i) = true -> m_game_total c i = 1.0) /\
  ((W_TEAM_TOTAL c =? 0) = true ->
   LEAGUE_AVG_TEAM_TOTAL c = LEAGUE_AVG_TEAM_TOTAL builtin ->
   is_finite (team_total_ou i) = true -> m_team_total c i = 1.0) /\
  ((W_DEF_AST_ALLOWED c =? 0) = true ->
   LEAGUE_AVG_AST_ALLOWED c = LEAGUE_AVG_AST_ALLOWED builtin ->
   is_finite (opp_ast_allowed i) = true -> m_def_ast c i = 1.0) /\
  ((W_PACE c =? 0) = true ->
   LEAGUE_AVG_PACE c = LEAGUE_AVG_PACE builtin ->
   is_finite (matchup_pace i) = true -> m_pace c i = 1.0) /\
  ((W_RECENT_FORM c =? 0) = true -> m_recent c i = 1.0) /\
  ((W_MINUTES_TREND c =? 0) = true -> m_minutes c i = 1.0) /\
  ((W_BACK_TO_BACK c =? 0) = true -> m_b2b c i = 1.0) /\
  ((W_POTENTIAL_AST c =? 0) = true -> m_potential_assists c i = 1.0).
Proof.
  repeat split.
  - intros Hw. unfold m_homeaway. destruct (feqb_zero_SF _ Hw) as [s E].
    destruct (truthy (is_home i)).
    + exact (fadd_one_zero _ s E).
    + exact (fsub_one_zero _ s E).
  - intros Hw Hb Hx. unfold m_game_total. rewrite Hb.
    exact (zero_weight_relative_deviation (LEAGUE_AVG_GAME_TOTAL builtin) _ _
             _ _ eq_refl eq_refl eq_refl Hw Hx).
  - intros Hw Hb Hx. unfold m_team_total. rewrite Hb.
    exact (zero_weight_relative_deviation (LEAGUE_AVG_TEAM_TOTAL builtin) _ _
             _ _ eq_refl eq_refl eq_refl Hw Hx).
  - intros Hw Hb Hx. unfold m_def_ast. rewrite Hb.
    change (LEAGUE_AVG_AST_ALLOWED builtin <=? 0) with false. cbv iota.
    exact (zero_weight_relative_deviation (LEAGUE_AVG_AST_ALLOWED builtin) _ _
             _ _ eq_refl eq_refl eq_refl Hw Hx).
  - intros Hw Hb Hx. unfold m_pace. rewrite Hb.
    change (LEAGUE_AVG_PACE builtin <=? 0) with false. cbv iota.
    exact (zero_weight_relative_deviation (LEAGUE_AVG_PACE builtin) _ _
             _ _ eq_refl eq_refl eq_refl Hw Hx).
  - intros Hw. unfold m_recent. rewrite Hw. reflexivity.
  - intros Hw. unfold m_minutes. rewrite Hw. reflexivity.
  - intros Hw. unfold m_b2b. rewrite (zero_weight_not_positive _ Hw), andb_false_r.
    reflexivity.
  - intros Hw. unfold m_potential_assists. rewrite Hw. reflexivity.
Qed.

Lemma zero_weight_neutralises_witness :
  m_game_total (with_W_GAME_TOTAL 0 builtin)
    (with_game_total_ou 250.5 example_home) = 1.0.
Proof.
  exact (proj1 (proj2 (zero_weight_neutralises (with_W_GAME_TOTAL 0 builtin)
                         (with_game_total_ou 250.5 example_home)))
           eq_refl eq_refl eq_refl).
Defined.

(** ** Monotonicity of the opponent-allowed factor *)

(** C7 (as stated, refuted).  25.0 and 25.000000000000004 are two
    consecutive doubles; the factor is 1.0 for both, because the deviation
    of the second is lost when it is added to 1.0. *)
Lemma m_def_ast_not_strictly_increasing :
  let i1 := with_opp_ast_allowed 25.0 example_home in
  let i2 := with_opp_ast_allowed 25.000000000000004 example_home in
  (opp_ast_allowed i1 <? opp_ast_allowed i2) = true /\
  (0 <? LEAGUE_AVG_AST_ALLOWED builtin) = true /\
  (0 <? W_DEF_AST_ALLOWED builtin) = true /\
  m_def_ast builtin i1 = 1.0 /\
  m_def_ast builtin i2 = 1.0 /\
  (m_def_ast builtin i1 <? m_def_ast builtin i2) = false.
Proof. repeat split; reflexivity. Qed.

(** C7 (amended).  With a finite positive league baseline and a finite
    positive weight the opponent-allowed factor is non-decreasing in
    [opp_ast_allowed]: of two records that differ in that field only, the one
    with the larger rate has a factor at least as large. *)
Theorem m_def_ast_nondecreasing (c : Config) (i : Inputs) (r1 r2 : float) :
  is_finite (LEAGUE_AVG_AST_ALLOWED c) = true ->
  (0 <? LEAGUE_AVG_AST_ALLOWED c) = true ->
  is_finite (W_DEF_AST_ALLOWED c) = true ->
  (0 <? W_DEF_AST_ALLOWED c) = true ->
  (r1 <=? r2) = true ->
  (m_def_ast c (with_opp_ast_allowed r1 i)
     <=? m_def_ast c (with_opp_ast_allowed r2 i)) = true.
Proof.
  intros Hfb Hb Hfw Hw Hr. unfold m_def_ast.
  rewrite (strictly_positive_not_le _ Hb).
  destruct (strictly_positive_finite_SF _ Hfb Hb) as (mb & eb & Eb).
  destruct (strictly_positive_finite_SF _ Hfw Hw) as (mw & ew & Ew).
  cbn [opp_ast_allowed with_opp_ast_allowed].
  exact (relative_deviation_mono _ _ _ _ _ _ _ _ Eb Ew Hr).
Qed.

Lemma m_def_ast_nondecreasing_witness :
  (m_def_ast builtin (with_opp_ast_allowed 22.5 example_home)
     <=? m_def_ast builtin (with_opp_ast_allowed 27.5 example_home)) = true.
Proof.
  apply m_def_ast_nondecreasing; reflexivity.
Defined.

(** * Further properties of the engine *)

(** ** Comparisons of doubles, read on the reals *)

Section FloatCompare.
Local Open Scope R_scope.

Lemma SFcompare_nan_l y : SFcompare S754_nan y = None.
Proof. destruct y; reflexivity. Qed.

Lemma SFcompare_nan_r x : SFcompare x S754_nan = None.
Proof. destruct x; reflexivity. Qed.

Lemma fleb_iff (x y : float) :
  (x <=? y)%float = true <->
  is_nan x = false /\ is_nan y = false /\ FR x <= FR y.
Proof.
  split.
  - intros H. destruct (fleb_not_nan _ _ H) as [Hx Hy].
    split; [exact Hx|]. split; [exact Hy|].
    rewrite leb_spec in H.
    destruct (SFleb_R _ _ (Prim2SF_valid x) (Prim2SF_valid y) H)
      as (_ & _ & [Hlt|[He|(s1 & s2 & E1 & E2)]]); unfold FR.
    + lra.
    + rewrite He. lra.
    + rewrite E1, E2. cbn [SF2R]. lra.
  - intros (Hx & Hy & H). rewrite is_nan_SF in Hx, Hy. rewrite leb_spec.
    apply R_SFleb; try apply Prim2SF_valid; assumption.
Qed.

Lemma fltb_iff (x y : float) :
  (x <? y)%float = true <->
  is_nan x = false /\ is_nan y = false /\ FR x < FR y.
Proof.
  rewrite ltb_spec, !is_nan_SF. unfold SFltb, FR.
  pose proof (SFcompare_R _ _ (Prim2SF_valid x) (Prim2SF_valid y)) as Hc.
  destruct (SFcompare (Prim2SF x) (Prim2SF y)) as [[| |]|] eqn:E.
  - split; [discriminate|]. intros (_ & _ & H).
    destruct Hc as [He|(s1 & s2 & E1 & E2)].
    + rewrite He in H. lra.
    + rewrite E1, E2 in H. cbn [SF2R] in H. lra.
  - split; [|reflexivity]. intros _.
    destruct (Prim2SF x), (Prim2SF y); cbn in E |- *; try discriminate; auto.
  - split; [discriminate|]. intros (_ & _ & H). lra.
  - split; [discriminate|]. intros (Hx & Hy & _). destruct Hc; congruence.
Qed.

Lemma fltb_false_iff (x y : float) :
  is_nan x = false -> is_nan y = false ->
  ((x <? y)%float = false <-> FR y <= FR x).
Proof.
  intros Hx Hy. pose proof (fltb_iff x y) as H.
  destruct (x <? y)%float.
  - destruct (proj1 H eq_refl) as (_ & _ & Hlt). split; [discriminate | lra].
  - split; [|reflexivity]. intros _.
    destruct (Rle_lt_dec (FR y) (FR x)) as [L|L]; [exact L|].
    assert (false = true) by (apply H; auto). discriminate.
Qed.

Lemma fltb_nan_l (x y : float) : is_nan x = true -> (x <? y)%float = false.
Proof.
  rewrite is_nan_SF, ltb_spec. unfold SFltb.
  destruct (Prim2SF x); try discriminate. rewrite SFcompare_nan_l. reflexivity.
Qed.

Lemma fltb_nan_r (x y : float) : is_nan y = true -> (x <? y)%float = false.
Proof.
  rewrite is_nan_SF, ltb_spec. unfold SFltb.
  destruct (Prim2SF y); try discriminate. rewrite SFcompare_nan_r. reflexivity.
Qed.

End FloatCompare.

(** ** The cap *)

Section Clamp.
Local Open Scope R_scope.

(** X2.  A NaN goes through [clamp]; nothing else comes out as a NaN. *)
Theorem clamp_nan_iff (x lo hi : float) :
  is_nan lo = false -> is_nan hi = false ->
  is_nan (clamp x lo hi) = is_nan x.
Proof.
  intros Hlo Hhi. unfold clamp.
  destruct (is_nan x) eqn:Hx.
  - rewrite (fltb_nan_l x lo Hx), (fltb_nan_r hi x Hx). exact Hx.
  - destruct (x <? lo)%float; [exact Hlo|].
    destruct (hi <? x)%float; [exact Hhi | exact Hx].
Qed.

Lemma clamp_nan_iff_witness :
  is_nan (clamp infinity 0.70 1.40) = false /\ is_nan (clamp nan 0.70 1.40) = true.
Proof.
  split.
  - exact (clamp_nan_iff infinity 0.70 1.40 eq_refl eq_refl).
  - exact (clamp_nan_iff nan 0.70 1.40 eq_refl eq_refl).
Defined.

(** Inside the range [clamp] changes nothing. *)
Lemma clamp_inside (x lo hi : float) :
  within lo hi x = true -> clamp x lo hi = x.
Proof.
  unfold within, clamp. rewrite andb_true_iff. intros [H1 H2].
  apply fleb_iff in H1, H2. destruct H1 as (Hlo & Hx & H1), H2 as (_ & Hhi & H2).
  rewrite (proj2 (fltb_false_iff x lo Hx Hlo) H1).
  rewrite (proj2 (fltb_false_iff hi x Hhi Hx) H2). reflexivity.
Qed.

Lemma clamp_above (x lo hi : float) :
  (lo <=? hi)%float = true -> (hi <? x)%float = true -> clamp x lo hi = hi.
Proof.
  intros Hle Hgt. unfold clamp.
  apply fleb_iff in Hle. destruct Hle as (Hlo & Hhi & Hle).
  pose proof (proj1 (fltb_iff hi x) Hgt) as (_ & Hx & Hlt).
  rewrite (proj2 (fltb_false_iff x lo Hx Hlo)) by lra.
  rewrite Hgt. reflexivity.
Qed.

Lemma clamp_below (x lo hi : float) :
  (x <? lo)%float = true -> clamp x lo hi = lo.
Proof. intros H. unfold clamp. rewrite H. reflexivity. Qed.

(** X4.  Clamping twice is clamping once. *)
Theorem clamp_idempotent (x lo hi : float) :
  (lo <=? hi)%float = true ->
  clamp (clamp x lo hi) lo hi = clamp x lo hi.
Proof.
  intros Hle. destruct (fleb_not_nan _ _ Hle) as [Hlo Hhi].
  destruct (is_nan x) eqn:Hx.
  - unfold clamp. rewrite (fltb_nan_l x lo Hx), (fltb_nan_r hi x Hx).
    rewrite (fltb_nan_l x lo Hx), (fltb_nan_r hi x Hx). reflexivity.
  - apply clamp_inside. apply clamp_within; assumption.
Qed.

Lemma clamp_idempotent_witness :
  clamp (clamp 2.5 0.70 1.40) 0.70 1.40 = clamp 2.5 0.70 1.40.
Proof. exact (clamp_idempotent 2.5 0.70 1.40 eq_refl). Defined.

(** X5.  [clamp] is non-decreasing. *)
Theorem clamp_monotone (x y lo hi : float) :
  (lo <=? hi)%float = true -> (x <=? y)%float = true ->
  (clamp x lo hi <=? clamp y lo hi)%float = true.
Proof.
  intros Hle Hxy.
  apply fleb_iff in Hle, Hxy.
  destruct Hle as (Hlo & Hhi & Hle), Hxy as (Hx & Hy & Hxy).
  unfold clamp.
  destruct (x <? lo)%float eqn:X1; destruct (y <? lo)%float eqn:Y1;
    try destruct (hi <? x)%float eqn:X2; try destruct (hi <? y)%float eqn:Y2;
    apply fleb_iff; repeat split; try assumption;
    repeat match goal with
    | H : (_ <? _)%float = true |- _ =>
        apply fltb_iff in H; destruct H as (_ & _ & H)
    | H : (?a <? ?b)%float = false |- _ =>
        apply (fltb_false_iff a b) in H; [|assumption|assumption]
    end; lra.
Qed.

Lemma clamp_monotone_witness :
  (clamp 0.5 0.70 1.40 <=? clamp 1.25 0.70 1.40)%float = true.
Proof. exact (clamp_monotone 0.5 1.25 0.70 1.40 eq_refl eq_refl). Defined.

End Clamp.

(** ** The multiplier of [project] and the cap *)

Lemma fleb_nan_r (x y : float) : is_nan y = true -> (x <=? y) = false.
Proof.
  rewrite is_nan_SF, leb_spec. unfold SFleb.
  destruct (Prim2SF y); try discriminate. rewrite SFcompare_nan_r. reflexivity.
Qed.

Lemma clamp_nan (x lo hi : float) : is_nan x = true -> clamp x lo hi = x.
Proof.
  intros Hx. unfold clamp.
  rewrite (fltb_nan_l x lo Hx), (fltb_nan_r hi x Hx). reflexivity.
Qed.

(** X1.  The final multiplier lies in [[MULT_MIN, MULT_MAX]] exactly when the
    product of the nine factors is not a NaN. *)
Theorem final_multiplier_in_range_iff (c : Config) (i : Inputs) :
  (MULT_MIN c <=? MULT_MAX c) = true ->
  within (MULT_MIN c) (MULT_MAX c) (o_final_multiplier (project c i))
    = negb (is_nan (o_uncapped_multiplier (project c i))).
Proof.
  intros Hle. cbn [project o_final_multiplier o_uncapped_multiplier].
  match goal with |- within _ _ (clamp ?u _ _) = _ => set (prod := u) end.
  destruct (is_nan prod) eqn:Hn.
  - rewrite (clamp_nan _ _ _ Hn). unfold within.
    rewrite (fleb_nan_r _ _ Hn). reflexivity.
  - exact (clamp_within _ _ _ Hn Hle).
Qed.

Lemma final_multiplier_in_range_iff_witness :
  within (MULT_MIN builtin) (MULT_MAX builtin)
    (o_final_multiplier (project builtin extreme_finite)) = false /\
  within (MULT_MIN builtin) (MULT_MAX builtin)
    (o_final_multiplier (project builtin example_home)) = true.
Proof.
  split.
  - exact (final_multiplier_in_range_iff builtin extreme_finite eq_refl).
  - exact (final_multiplier_in_range_iff builtin example_home eq_refl).
Defined.

(** X3.  The final multiplier is the uncapped one inside the range, [MULT_MAX]
    above it (up to [+infinity]) and [MULT_MIN] below it (down to
    [-infinity]). *)
Theorem final_multiplier_cases (c : Config) (i : Inputs) :
  (MULT_MIN c <=? MULT_MAX c) = true ->
  let u := o_uncapped_multiplier (project c i) in
  let f := o_final_multiplier (project c i) in
  (within (MULT_MIN c) (MULT_MAX c) u = true -> f = u) /\
  ((MULT_MAX c <? u) = true -> f = MULT_MAX c) /\
  ((u <? MULT_MIN c) = true -> f = MULT_MIN c).
Proof.
  intros Hle u f. repeat split.
  - apply clamp_inside.
  - apply clamp_above. exact Hle.
  - apply clamp_below.
Qed.

Lemma final_multiplier_cases_witness :
  o_final_multiplier
    (project builtin (with_game_total_ou infinity example_home)) = 1.40.
Proof.
  exact (proj1 (proj2 (final_multiplier_cases builtin
                         (with_game_total_ou infinity example_home) eq_refl))
           eq_refl).
Defined.

(** ** Subtraction as addition of the opposite *)

Lemma SFsub_as_add (x y : spec_float) :
  SFsub prec emax x y = SFadd prec emax x (SFopp y).
Proof.
  destruct x as [sx|sx| |sx mx ex], y as [sy|sy| |sy my ey];
    try reflexivity; cbn [SFsub SFadd SFopp].
  - destruct sx, sy; reflexivity.
  - destruct sx, sy; reflexivity.
  - f_equal. destruct sy; cbn [negb cond_Zopp]; lia.
Qed.

Lemma fsub_as_add (x y : float) : x - y = x + (- y).
Proof.
  apply Prim2SF_inj. rewrite sub_spec, add_spec, opp_spec.
  apply SFsub_as_add.
Qed.

Section Opposite.
Local Open Scope R_scope.

Lemma FR_opp (x : float) : FR (- x) = - FR x.
Proof.
  unfold FR. rewrite opp_spec.
  destruct (Prim2SF x) as [s|s| |s m e]; cbn [SFopp SF2R negb];
    try destruct s; cbn [negb]; ring.
Qed.

Lemma is_nan_opp (x : float) : is_nan (- x) = is_nan x.
Proof.
  rewrite !is_nan_SF, opp_spec. destruct (Prim2SF x); reflexivity.
Qed.

Lemma fopp_antitone (x y : float) :
  (x <=? y)%float = true -> (- y <=? - x)%float = true.
Proof.
  intros H. apply fleb_iff in H. destruct H as (Hx & Hy & H).
  apply fleb_iff. rewrite !is_nan_opp, !FR_opp. repeat split; try assumption. lra.
Qed.

End Opposite.

Lemma fsub_antitone (c x y : float) sc mc ec :
  Prim2SF c = S754_finite sc mc ec ->
  (x <=? y) = true -> (c - y <=? c - x) = true.
Proof.
  intros Ec H. rewrite !fsub_as_add.
  apply (fadd_mono c _ _ _ _ _ Ec). apply fopp_antitone. exact H.
Qed.

(** ** Back-to-back and home/away *)

(** X6.  The back-to-back factor never amplifies: whatever the configuration and
    the inputs it is at most 1.0 (and never a NaN). *)
Theorem m_b2b_never_amplifies (c : Config) (i : Inputs) :
  (m_b2b c i <=? 1.0) = true.
Proof.
  unfold m_b2b.
  destruct (truthy (is_back_to_back i) && (0 <? W_BACK_TO_BACK c)) eqn:G.
  - apply andb_true_iff in G. destruct G as [_ Hw].
    change 1.0 with (1.0 - 0) at 2.
    apply (fsub_antitone 1.0 _ _ _ _ _ Prim2SF_one).
    apply fltb_leb. exact Hw.
  - reflexivity.
Qed.

(** X7.  With a non-negative weight a home game never lowers and an away game
    never raises the projection through the home/away factor. *)
Theorem m_homeaway_brackets_one (c : Config) (i : Inputs) :
  (0 <=? W_HOME_AWAY c) = true ->
  (if truthy (is_home i)
   then 1.0 <=? m_homeaway c i
   else m_homeaway c i <=? 1.0) = true.
Proof.
  intros Hw. unfold m_homeaway. destruct (truthy (is_home i)).
  - change 1.0 with (1.0 + 0) at 1.
    apply (fadd_mono 1.0 _ _ _ _ _ Prim2SF_one). exact Hw.
  - change 1.0 with (1.0 - 0) at 2.
    apply (fsub_antitone 1.0 _ _ _ _ _ Prim2SF_one). exact Hw.
Qed.

Lemma m_homeaway_brackets_one_witness :
  (m_homeaway builtin (with_is_home 0 example_home) <=? 1.0) = true.
Proof.
  exact (m_homeaway_brackets_one builtin (with_is_home 0 example_home) eq_refl).
Defined.

(** ** Every relative-deviation factor is non-decreasing in its observation *)

Lemma nonneg_weight_cases (w : float) :
  is_finite w = true -> (0 <=? w) = true ->
  (w =? 0) = true \/ exists m e, Prim2SF w = S754_finite false m e.
Proof.
  intros Hf Hw. rewrite leb_spec, Prim2SF_zero in Hw. rewrite eqb_spec, Prim2SF_zero.
  destruct (is_finite_SF w Hf) as [[s E]|[s [m [e E]]]]; rewrite E in *.
  - left. reflexivity.
  - right. destruct s; [discriminate | eauto].
Qed.

(** X8.  A higher game total never lowers the game-total factor (finite positive
    league baseline and weight). *)
Theorem m_game_total_nondecreasing (c : Config) (i : Inputs) (x1 x2 : float) :
  is_finite (LEAGUE_AVG_GAME_TOTAL c) = true ->
  (0 <? LEAGUE_AVG_GAME_TOTAL c) = true ->
  is_finite (W_GAME_TOTAL c) = true ->
  (0 <? W_GAME_TOTAL c) = true ->
  (x1 <=? x2) = true ->
  (m_game_total c (with_game_total_ou x1 i)
     <=? m_game_total c (with_game_total_ou x2 i)) = true.
Proof.
  intros Hfb Hb Hfw Hw Hx. unfold m_game_total.
  destruct (strictly_positive_finite_SF _ Hfb Hb) as (mb & eb & Eb).
  destruct (strictly_positive_finite_SF _ Hfw Hw) as (mw & ew & Ew).
  cbn [game_total_ou with_game_total_ou].
  exact (relative_deviation_mono _ _ _ _ _ _ _ _ Eb Ew Hx).
Qed.

Lemma m_game_total_nondecreasing_witness :
  (m_game_total builtin (with_game_total_ou 215.5 example_home)
     <=? m_game_total builtin (with_game_total_ou 240.0 example_home)) = true.
Proof. apply m_game_total_nondecreasing; reflexivity. Defined.

(** X9.  A higher team total never lowers the team-total factor (finite positive
    league baseline and weight). *)
Theorem m_team_total_nondecreasing (c : Config) (i : Inputs) (x1 x2 : float) :
  is_finite (LEAGUE_AVG_TEAM_TOTAL c) = true ->
  (0 <? LEAGUE_AVG_TEAM_TOTAL c) = true ->
  is_finite (W_TEAM_TOTAL c) = true ->
  (0 <? W_TEAM_TOTAL c) = true ->
  (x1 <=? x2) = true ->
  (m_team_total c (with_team_total_ou x1 i)
     <=? m_team_total c (with_team_total_ou x2 i)) = true.
Proof.
  intros Hfb Hb Hfw Hw Hx. unfold m_team_total.
  destruct (strictly_positive_finite_SF _ Hfb Hb) as (mb & eb & Eb).
  destruct (strictly_positive_finite_SF _ Hfw Hw) as (mw & ew & Ew).
  cbn [team_total_ou with_team_total_ou].
  exact (relative_deviation_mono _ _ _ _ _ _ _ _ Eb Ew Hx).
Qed.

Lemma m_team_total_nondecreasing_witness :
  (m_team_total builtin (with_team_total_ou 108.0 example_home)
     <=? m_team_total builtin (with_team_total_ou 121.5 example_home)) = true.
Proof. apply m_team_total_nondecreasing; reflexivity. Defined.

(** X10.  A faster matchup pace never lowers the pace factor (finite positive
    league baseline and weight). *)
Theorem m_pace_nondecreasing (c : Config) (i : Inputs) (x1 x2 : float) :
  is_finite (LEAGUE_AVG_PACE c) = true ->
  (0 <? LEAGUE_AVG_PACE c) = true ->
  is_finite (W_PACE c) = true ->
  (0 <? W_PACE c) = true ->
  (x1 <=? x2) = true ->
  (m_pace c (with_matchup_pace x1 i)
     <=? m_pace c (with_matchup_pace x2 i)) = true.
Proof.
  intros Hfb Hb Hfw Hw Hx. unfold m_pace.
  rewrite (strictly_positive_not_le _ Hb).
  destruct (strictly_positive_finite_SF _ Hfb Hb) as (mb & eb & Eb).
  destruct (strictly_positive_finite_SF _ Hfw Hw) as (mw & ew & Ew).
  cbn [matchup_pace with_matchup_pace].
  exact (relative_deviation_mono _ _ _ _ _ _ _ _ Eb Ew Hx).
Qed.

Lemma m_pace_nondecreasing_witness :
  (m_pace builtin (with_matchup_pace 96.0 example_home)
     <=? m_pace builtin (with_matchup_pace 103.25 example_home)) = true.
Proof. apply m_pace_nondecreasing; reflexivity. Defined.

(** The template guarded as the season-relative factors are:
    [weight == 0 || base <= 0] gives 1.0. *)
Lemma guarded_deviation_mono (base weight x y : float) :
  is_finite weight = true -> (0 <=? weight) = true ->
  is_finite base = true ->
  (x <=? y) = true ->
  ((if (weight =? 0) || (base <=? 0) then 1.0
    else 1.0 + (x - base) / base * weight)
   <=?
   (if (weight =? 0) || (base <=? 0) then 1.0
    else 1.0 + (y - base) / base * weight)) = true.
Proof.
  intros Hfw Hw Hfb Hx.
  destruct (nonneg_weight_cases _ Hfw Hw) as [Hz|(mw & ew & Ew)].
  - rewrite Hz. reflexivity.
  - destruct (base <=? 0) eqn:Hb.
    + rewrite orb_true_r. reflexivity.
    + destruct (positive_finite_SF _ Hfb Hb) as (mb & eb & Eb).
      destruct (weight =? 0); [reflexivity|]. cbn [orb].
      exact (relative_deviation_mono _ _ _ _ _ _ _ _ Eb Ew Hx).
Qed.

(** X11.  A better recent average never lowers the recent-form factor. *)
Theorem m_recent_nondecreasing (c : Config) (i : Inputs) (x1 x2 : float) :
  is_finite (W_RECENT_FORM c) = true ->
  (0 <=? W_RECENT_FORM c) = true ->
  is_finite (season_avg_ast i) = true ->
  (x1 <=? x2) = true ->
  (m_recent c (with_recent_avg_ast x1 i)
     <=? m_recent c (with_recent_avg_ast x2 i)) = true.
Proof.
  intros Hfw Hw Hfs Hx. unfold m_recent.
  cbn [recent_avg_ast season_avg_ast with_recent_avg_ast].
  exact (guarded_deviation_mono _ _ _ _ Hfw Hw Hfs Hx).
Qed.

Lemma m_recent_nondecreasing_witness :
  (m_recent builtin (with_recent_avg_ast 3.5 example_home)
     <=? m_recent builtin (with_recent_avg_ast 7.25 example_home)) = true.
Proof. apply m_recent_nondecreasing; reflexivity. Defined.

(** X12.  More expected minutes never lower the minutes-trend factor. *)
Theorem m_minutes_nondecreasing (c : Config) (i : Inputs) (x1 x2 : float) :
  is_finite (W_MINUTES_TREND c) = true ->
  (0 <=? W_MINUTES_TREND c) = true ->
  is_finite (season_avg_minutes i) = true ->
  (x1 <=? x2) = true ->
  (m_minutes c (with_expected_minutes x1 i)
     <=? m_minutes c (with_expected_minutes x2 i)) = true.
Proof.
  intros Hfw Hw Hfs Hx. unfold m_minutes.
  cbn [expected_minutes season_avg_minutes with_expected_minutes].
  exact (guarded_deviation_mono _ _ _ _ Hfw Hw Hfs Hx).
Qed.

Lemma m_minutes_nondecreasing_witness :
  (m_minutes builtin (with_expected_minutes 24.0 example_home)
     <=? m_minutes builtin (with_expected_minutes 36.5 example_home)) = true.
Proof. apply m_minutes_nondecreasing; reflexivity. Defined.

(** ** Multiplication and addition commute *)

Lemma SFmul_comm (x y : spec_float) : SFmul prec emax x y = SFmul prec emax y x.
Proof.
  destruct x as [sx|sx| |sx mx ex], y as [sy|sy| |sy my ey];
    try reflexivity; cbn [SFmul]; rewrite (xorb_comm sx sy); try reflexivity.
  rewrite (Pos.mul_comm mx my), (Z.add_comm ex ey). reflexivity.
Qed.

Lemma fmul_comm (x y : float) : x * y = y * x.
Proof.
  apply Prim2SF_inj. rewrite !mul_spec. apply SFmul_comm.
Qed.

Lemma SFadd_comm (x y : spec_float) : SFadd prec emax x y = SFadd prec emax y x.
Proof.
  destruct x as [sx|sx| |sx mx ex], y as [sy|sy| |sy my ey];
    try reflexivity; cbn [SFadd].
  - destruct sx, sy; reflexivity.
  - destruct sx, sy; reflexivity.
  - rewrite (Z.min_comm ex ey). f_equal. apply Z.add_comm.
Qed.

Lemma fadd_comm (x y : float) : x + y = y + x.
Proof.
  apply Prim2SF_inj. rewrite !add_spec. apply SFadd_comm.
Qed.

(** X13.  More potential assists, or a better conversion of them, never lower the
    potential-assists factor. *)
Theorem m_potential_nondecreasing (c : Config) (i : Inputs) :
  is_finite (W_POTENTIAL_AST c) = true ->
  (0 <=? W_POTENTIAL_AST c) = true ->
  is_finite (season_avg_ast i) = true ->
  (forall p1 p2,
     is_finite (last5_conversion i) = true -> (0 <? last5_conversion i) = true ->
     (p1 <=? p2) = true ->
     (m_potential_assists c (with_last5_potential_ast p1 i)
        <=? m_potential_assists c (with_last5_potential_ast p2 i)) = true) /\
  (forall k1 k2,
     is_finite (last5_potential_ast i) = true ->
     (0 <? last5_potential_ast i) = true ->
     (k1 <=? k2) = true ->
     (m_potential_assists c (with_last5_conversion k1 i)
        <=? m_potential_assists c (with_last5_conversion k2 i)) = true).
Proof.
  intros Hfw Hw Hfs. split.
  - intros p1 p2 Hfk Hk Hp. unfold m_potential_assists.
    cbn [last5_potential_ast last5_conversion season_avg_ast
         with_last5_potential_ast].
    destruct (strictly_positive_finite_SF _ Hfk Hk) as (mk & ek & Ek).
    apply (guarded_deviation_mono _ _ _ _ Hfw Hw Hfs).
    exact (fmul_mono _ _ _ _ _ Ek Hp).
  - intros k1 k2 Hfp Hp Hk. unfold m_potential_assists.
    cbn [last5_potential_ast last5_conversion season_avg_ast
         with_last5_conversion].
    destruct (strictly_positive_finite_SF _ Hfp Hp) as (mp & ep & Ep).
    apply (guarded_deviation_mono _ _ _ _ Hfw Hw Hfs).
    rewrite (fmul_comm _ k1), (fmul_comm _ k2).
    exact (fmul_mono _ _ _ _ _ Ep Hk).
Qed.

Lemma m_potential_nondecreasing_witness :
  (m_potential_assists builtin (with_last5_potential_ast 7.5 example_home)
     <=? m_potential_assists builtin (with_last5_potential_ast 11.0 example_home))
  = true.
Proof.
  exact (proj1 (m_potential_nondecreasing builtin example_home
                  eq_refl eq_refl eq_refl) 7.5 11.0 eq_refl eq_refl eq_refl).
Defined.

(** ** An observation equal to its baseline neutralises the factor *)

Lemma zero_div_finite_any (x : float) s m e :
  Prim2SF x = S754_finite s m e -> exists s', Prim2SF (0 / x) = S754_zero s'.
Proof.
  intros E. rewrite div_spec, E, Prim2SF_zero. cbn. eauto.
Qed.

Lemma fmul_zero_finite (z w : float) sz :
  Prim2SF z = S754_zero sz -> is_finite w = true ->
  exists s, Prim2SF (z * w) = S754_zero s.
Proof.
  intros Ez Hw. rewrite mul_spec, Ez.
  destruct (is_finite_SF w Hw) as [[s E]|[s [m [e E]]]]; rewrite E; cbn; eauto.
Qed.

Lemma neutral_template (base weight y : float) s m e :
  Prim2SF base = S754_finite s m e -> is_finite weight = true ->
  (y =? base) = true ->
  1 + (y - base) / base * weight = 1.
Proof.
  intros Eb Hw Hy.
  rewrite (feqb_finite_eq y base _ _ _ Eb Hy), (sub_self_finite base _ _ _ Eb).
  destruct (zero_div_finite_any base _ _ _ Eb) as [s1 E1].
  destruct (fmul_zero_finite _ weight _ E1 Hw) as [s2 E2].
  exact (fadd_one_zero _ _ E2).
Qed.

Lemma finite_nonzero_SF (x : float) :
  is_finite x = true -> is_zero x = false ->
  exists s m e, Prim2SF x = S754_finite s m e.
Proof.
  intros Hf Hz. destruct (is_finite_SF x Hf) as [[s E]|H]; [|exact H].
  unfold is_zero in Hz. rewrite eqb_spec, E in Hz. vm_compute in Hz. discriminate.
Qed.

(** X14.  Whatever the finite weights and the finite non-zero league baselines of
    the configuration, an observation equal to its league baseline gives a
    factor of exactly 1.0. *)
Theorem league_baseline_neutral (c : Config) (i : Inputs) :
  (is_finite (LEAGUE_AVG_GAME_TOTAL c) = true ->
   is_zero (LEAGUE_AVG_GAME_TOTAL c) = false ->
   is_finite (W_GAME_TOTAL c) = true ->
   (game_total_ou i =? LEAGUE_AVG_GAME_TOTAL c) = true ->
   m_game_total c i = 1.0) /\
  (is_finite (LEAGUE_AVG_TEAM_TOTAL c) = true ->
   is_zero (LEAGUE_AVG_TEAM_TOTAL c) = false ->
   is_finite (W_TEAM_TOTAL c) = true ->
   (team_total_ou i =? LEAGUE_AVG_TEAM_TOTAL c) = true ->
   m_team_total c i = 1.0) /\
  (is_finite (LEAGUE_AVG_AST_ALLOWED c) = true ->
   is_finite (W_DEF_AST_ALLOWED c) = true ->
   (opp_ast_allowed i =? LEAGUE_AVG_AST_ALLOWED c) = true ->
   m_def_ast c i = 1.0) /\
  (is_finite (LEAGUE_AVG_PACE c) = true ->
   is_finite (W_PACE c) = true ->
   (matchup_pace i =? LEAGUE_AVG_PACE c) = true ->
   m_pace c i = 1.0).
Proof.
  repeat split.
  - intros Hfb Hz Hfw H. unfold m_game_total.
    destruct (finite_nonzero_SF _ Hfb Hz) as (s & m & e & Eb).
    exact (neutral_template _ _ _ _ _ _ Eb Hfw H).
  - intros Hfb Hz Hfw H. unfold m_team_total.
    destruct (finite_nonzero_SF _ Hfb Hz) as (s & m & e & Eb).
    exact (neutral_template _ _ _ _ _ _ Eb Hfw H).
  - intros Hfb Hfw H. unfold m_def_ast.
    destruct (LEAGUE_AVG_AST_ALLOWED c <=? 0) eqn:G; [reflexivity|].
    destruct (positive_finite_SF _ Hfb G) as (m & e & Eb).
    exact (neutral_template _ _ _ _ _ _ Eb Hfw H).
  - intros Hfb Hfw H. unfold m_pace.
    destruct (LEAGUE_AVG_PACE c <=? 0) eqn:G; [reflexivity|].
    destruct (positive_finite_SF _ Hfb G) as (m & e & Eb).
    exact (neutral_template _ _ _ _ _ _ Eb Hfw H).
Qed.

Lemma league_baseline_neutral_witness :
  m_game_total (with_W_GAME_TOTAL 0.25 builtin) example_home = 1.0.
Proof.
  exact (proj1 (league_baseline_neutral (with_W_GAME_TOTAL 0.25 builtin)
                  example_home) eq_refl eq_refl eq_refl eq_refl).
Defined.

Lemma guarded_template_neutral (base weight y : float) :
  is_finite base = true -> is_finite weight = true -> (y =? base) = true ->
  (if (weight =? 0) || (base <=? 0) then 1.0
   else 1.0 + (y - base) / base * weight) = 1.0.
Proof.
  intros Hfb Hfw H.
  destruct ((weight =? 0) || (base <=? 0)) eqn:G; [reflexivity|].
  apply orb_false_iff in G. destruct G as [_ G].
  destruct (positive_finite_SF _ Hfb G) as (m & e & Eb).
  exact (neutral_template _ _ _ _ _ _ Eb Hfw H).
Qed.

(** X15.  "Enter season avg to neutralize": whatever the finite weight, a recent
    average equal to the (finite) season average gives a recent-form factor
    of exactly 1.0; likewise expected minutes equal to the season minutes,
    and potential assists times conversion equal to the season average. *)
Theorem season_baseline_neutral (c : Config) (i : Inputs) :
  (is_finite (season_avg_ast i) = true ->
   is_finite (W_RECENT_FORM c) = true ->
   (recent_avg_ast i =? season_avg_ast i) = true ->
   m_recent c i = 1.0) /\
  (is_finite (season_avg_minutes i) = true ->
   is_finite (W_MINUTES_TREND c) = true ->
   (expected_minutes i =? season_avg_minutes i) = true ->
   m_minutes c i = 1.0) /\
  (is_finite (season_avg_ast i) = true ->
   is_finite (W_POTENTIAL_AST c) = true ->
   (last5_potential_ast i * last5_conversion i =? season_avg_ast i) = true ->
   m_potential_assists c i = 1.0).
Proof.
  repeat split; intros Hfb Hfw H.
  - exact (guarded_template_neutral _ _ _ Hfb Hfw H).
  - exact (guarded_template_neutral _ _ _ Hfb Hfw H).
  - exact (guarded_template_neutral _ _ _ Hfb Hfw H).
Qed.

Lemma season_baseline_neutral_witness :
  m_recent builtin exactly_neutral = 1.0.
Proof.
  exact (proj1 (season_baseline_neutral builtin
                  exactly_neutral) eq_refl eq_refl eq_refl).
Defined.

(** ** Finite observations give finite league factors *)

Lemma SF_shape_is_finite (x : float) :
  (exists s, Prim2SF x = S754_zero s) \/
  (exists s m e, Prim2SF x = S754_finite s m e) ->
  is_finite x = true.
Proof.
  intros H. unfold is_finite, is_infinity. rewrite is_nan_SF, eqb_spec, abs_spec.
  destruct H as [[s E]|[s [m [e E]]]]; rewrite E; reflexivity.
Qed.

Lemma template_finite (base weight x : float) mb eb mw ew :
  Prim2SF base = S754_finite false mb eb ->
  Prim2SF weight = S754_finite false mw ew ->
  is_finite (1 + (- max_double - base) / base * weight) = true ->
  is_finite (1 + (max_double - base) / base * weight) = true ->
  is_finite x = true ->
  is_finite (1 + (x - base) / base * weight) = true.
Proof.
  intros Eb Ew Hlo Hhi Hx. destruct (finite_range x Hx) as [H1 H2].
  apply SF_shape_is_finite, (between_finite_SF _ _ _ Hlo Hhi).
  - exact (relative_deviation_mono _ _ _ _ _ _ _ _ Eb Ew H1).
  - exact (relative_deviation_mono _ _ _ _ _ _ _ _ Eb Ew H2).
Qed.

(** X16.  With the built-in constants the four league-baseline factors are finite
    numbers for every finite observation: no division by zero, no overflow,
    no NaN. *)
Theorem league_factors_finite (i : Inputs) :
  (is_finite (game_total_ou i) = true -> is_finite (m_game_total builtin i) = true) /\
  (is_finite (team_total_ou i) = true -> is_finite (m_team_total builtin i) = true) /\
  (is_finite (opp_ast_allowed i) = true -> is_finite (m_def_ast builtin i) = true) /\
  (is_finite (matchup_pace i) = true -> is_finite (m_pace builtin i) = true).
Proof.
  repeat split; intros Hx.
  - exact (template_finite (LEAGUE_AVG_GAME_TOTAL builtin) (W_GAME_TOTAL builtin)
             _ _ _ _ _ eq_refl eq_refl eq_refl eq_refl Hx).
  - exact (template_finite (LEAGUE_AVG_TEAM_TOTAL builtin) (W_TEAM_TOTAL builtin)
             _ _ _ _ _ eq_refl eq_refl eq_refl eq_refl Hx).
  - exact (template_finite (LEAGUE_AVG_AST_ALLOWED builtin)
             (W_DEF_AST_ALLOWED builtin)
             _ _ _ _ _ eq_refl eq_refl eq_refl eq_refl Hx).
  - exact (template_finite (LEAGUE_AVG_PACE builtin) (W_PACE builtin)
             _ _ _ _ _ eq_refl eq_refl eq_refl eq_refl Hx).
Qed.

Lemma league_factors_finite_witness :
  is_finite (m_game_total builtin (with_game_total_ou 1e300 example_home)) = true.
Proof.
  exact (proj1 (league_factors_finite (with_game_total_ou 1e300 example_home))
           eq_refl).
Defined.

(** ** Base value and projection *)

Section AddZero.
Local Open Scope R_scope.

Lemma SF64add_zero_rounds sc :
  rounds (fun v => v) (fun x => SF64add (S754_zero sc) x).
Proof.
  unfold SF64add. split; [|split; [|split]].
  - intros s. reflexivity.
  - intros s. destruct sc, s; reflexivity.
  - intros [s|s| |s m e] Hn Hx; try discriminate; try reflexivity.
    destruct sc, s; reflexivity.
  - intros [s|s| |s m e] Hx; try exact I.
    + left. split; [reflexivity|]. destruct sc, s; reflexivity.
    + exact (valid_rnd_self (S754_finite s m e) Hx eq_refl).
Qed.

Lemma fleb_trans (x y z : float) :
  (x <=? y)%float = true -> (y <=? z)%float = true -> (x <=? z)%float = true.
Proof.
  intros H1 H2. apply fleb_iff in H1, H2. apply fleb_iff.
  destruct H1 as (Hx & Hy & H1), H2 as (_ & Hz & H2).
  repeat split; try assumption. lra.
Qed.

End AddZero.

Lemma fadd_mono_finite (c x y : float) :
  is_finite c = true -> (x <=? y) = true -> (c + x <=? c + y) = true.
Proof.
  intros Hc H. destruct (is_finite_SF c Hc) as [[s E]|[s [m [e E]]]].
  - rewrite leb_spec in *.
    pose proof (Prim2SF_valid (c + x)) as Vx.
    pose proof (Prim2SF_valid (c + y)) as Vy.
    rewrite add_spec, E in Vx, Vy. rewrite !add_spec, !E.
    apply (rounds_monotone _ _ (SF64add_zero_rounds s));
      try assumption; try apply Prim2SF_valid.
    intros a b Hab. exact Hab.
  - exact (fadd_mono c x y s m e E H).
Qed.

Lemma fmul_left_mono (w x y : float) mw ew :
  Prim2SF w = S754_finite false mw ew ->
  (x <=? y) = true -> (w * x <=? w * y) = true.
Proof.
  intros Ew H. rewrite (fmul_comm w x), (fmul_comm w y).
  exact (fmul_mono w x y mw ew Ew H).
Qed.

(** A product [w * x] with [w] finite and positive is finite for every
    finite [x], as soon as it is at the two ends of the range. *)
Lemma weighted_finite (w x : float) mw ew :
  Prim2SF w = S754_finite false mw ew ->
  is_finite (w * - max_double) = true -> is_finite (w * max_double) = true ->
  is_finite x = true -> is_finite (w * x) = true.
Proof.
  intros Ew Hlo Hhi Hx. destruct (finite_range x Hx) as [H1 H2].
  apply SF_shape_is_finite, (between_finite_SF _ _ _ Hlo Hhi).
  - exact (fmul_left_mono _ _ _ _ _ Ew H1).
  - exact (fmul_left_mono _ _ _ _ _ Ew H2).
Qed.

(** The blend of the source, [wl * l + ws * s], is non-decreasing in both
    [l] and [s] over the finite doubles when the two products cannot
    overflow. *)
Lemma blend_mono (wl ws l1 l2 s1 s2 : float) ml el ms es :
  Prim2SF wl = S754_finite false ml el ->
  Prim2SF ws = S754_finite false ms es ->
  is_finite (wl * - max_double) = true -> is_finite (wl * max_double) = true ->
  is_finite (ws * - max_double) = true -> is_finite (ws * max_double) = true ->
  is_finite l1 = true -> is_finite l2 = true ->
  is_finite s1 = true -> is_finite s2 = true ->
  (l1 <=? l2) = true -> (s1 <=? s2) = true ->
  (wl * l1 + ws * s1 <=? wl * l2 + ws * s2) = true.
Proof.
  intros El Es Al Ah Bl Bh Fl1 Fl2 Fs1 Fs2 Hl Hs.
  pose proof (weighted_finite wl l1 _ _ El Al Ah Fl1) as FA1.
  pose proof (weighted_finite ws s2 _ _ Es Bl Bh Fs2) as FB2.
  apply fleb_trans with (wl * l1 + ws * s2).
  - apply (fadd_mono_finite _ _ _ FA1). exact (fmul_left_mono _ _ _ _ _ Es Hs).
  - rewrite (fadd_comm (wl * l1)), (fadd_comm (wl * l2)).
    apply (fadd_mono_finite _ _ _ FB2). exact (fmul_left_mono _ _ _ _ _ El Hl).
Qed.

(** X17.  A higher sportsbook line or season average never lowers the base value
    (built-in weights, finite inputs). *)
Theorem base_assists_nondecreasing (i : Inputs) (l1 l2 s1 s2 : float) :
  is_finite l1 = true -> is_finite l2 = true ->
  is_finite s1 = true -> is_finite s2 = true ->
  (l1 <=? l2) = true -> (s1 <=? s2) = true ->
  (base_assists builtin (with_line_ast l1 (with_season_avg_ast s1 i))
     <=? base_assists builtin (with_line_ast l2 (with_season_avg_ast s2 i)))
  = true.
Proof.
  intros Fl1 Fl2 Fs1 Fs2 Hl Hs. unfold base_assists.
  cbn [line_ast season_avg_ast with_line_ast with_season_avg_ast].
  exact (blend_mono (W_BASE_LINE builtin) (W_BASE_SEASON_AVG builtin) _ _ _ _
           _ _ _ _ eq_refl eq_refl eq_refl eq_refl eq_refl eq_refl
           Fl1 Fl2 Fs1 Fs2 Hl Hs).
Qed.

Lemma base_assists_nondecreasing_witness :
  (base_assists builtin (with_line_ast 4.5 (with_season_avg_ast 5.0 example_home))
     <=? base_assists builtin
           (with_line_ast 6.5 (with_season_avg_ast 5.25 example_home))) = true.
Proof. apply base_assists_nondecreasing; reflexivity. Defined.

Lemma blend_builtin_finite (l s : float) :
  is_finite l = true -> is_finite s = true ->
  is_finite (W_BASE_LINE builtin * l + W_BASE_SEASON_AVG builtin * s) = true.
Proof.
  intros Fl Fs.
  destruct (finite_range _ Fl) as [L1 L2], (finite_range _ Fs) as [S1 S2].
  apply SF_shape_is_finite.
  apply (between_finite_SF
           (W_BASE_LINE builtin * - max_double
              + W_BASE_SEASON_AVG builtin * - max_double)
           (W_BASE_LINE builtin * max_double
              + W_BASE_SEASON_AVG builtin * max_double)); try reflexivity.
  - exact (blend_mono (W_BASE_LINE builtin) (W_BASE_SEASON_AVG builtin)
             (- max_double) l (- max_double) s
             _ _ _ _ eq_refl eq_refl eq_refl eq_refl eq_refl eq_refl
             eq_refl Fl eq_refl Fs L1 S1).
  - exact (blend_mono (W_BASE_LINE builtin) (W_BASE_SEASON_AVG builtin)
             l max_double s max_double
             _ _ _ _ eq_refl eq_refl eq_refl eq_refl eq_refl eq_refl
             Fl eq_refl Fs eq_refl L2 S2).
Qed.

(** X18.  The base value of finite inputs is finite: the blend cannot overflow. *)
Theorem base_assists_finite (i : Inputs) :
  is_finite (line_ast i) = true -> is_finite (season_avg_ast i) = true ->
  is_finite (base_assists builtin i) = true.
Proof. intros Fl Fs. exact (blend_builtin_finite _ _ Fl Fs). Qed.

Lemma base_assists_finite_witness :
  is_finite (base_assists builtin
               (with_line_ast max_double
                  (with_season_avg_ast max_double example_home))) = true.
Proof. apply base_assists_finite; reflexivity. Defined.

(** Between the two caps, a double is finite and positive. *)
Lemma within_caps_positive (f : float) :
  within (MULT_MIN builtin) (MULT_MAX builtin) f = true ->
  exists m e, Prim2SF f = S754_finite false m e.
Proof.
  unfold within. rewrite andb_true_iff, !leb_spec. unfold SFleb.
  change (Prim2SF (MULT_MIN builtin))
    with (S754_finite false 6305039478318694 (-53)).
  change (Prim2SF (MULT_MAX builtin))
    with (S754_finite false 6305039478318694 (-52)).
  destruct (Prim2SF f) as [s|[|]| |[|] m e]; intros [H1 H2].
  - cbn in H1. discriminate H1.
  - cbn in H1. discriminate H1.
  - cbn in H2. discriminate H2.
  - cbn in H1. discriminate H1.
  - cbn in H1. discriminate H1.
  - eauto.
Qed.

(** X19.  For a finite positive base value and an uncapped multiplier that is not
    a NaN, the projection lies between [base * MULT_MIN] and
    [base * MULT_MAX]. *)
Theorem projection_between_caps (c : Config) (i : Inputs) :
  (MULT_MIN c <=? MULT_MAX c) = true ->
  is_nan (o_uncapped_multiplier (project c i)) = false ->
  is_finite (base_assists c i) = true -> (0 <? base_assists c i) = true ->
  within (base_assists c i * MULT_MIN c) (base_assists c i * MULT_MAX c)
    (o_projection (project c i)) = true.
Proof.
  intros Hle Hn Hfb Hb.
  destruct (strictly_positive_finite_SF _ Hfb Hb) as (mb & eb & Eb).
  pose proof (clamp_within _ _ _ Hn Hle) as Hw.
  unfold within in Hw |- *. apply andb_true_iff in Hw. destruct Hw as [H1 H2].
  apply andb_true_iff. split.
  - exact (fmul_left_mono _ _ _ _ _ Eb H1).
  - exact (fmul_left_mono _ _ _ _ _ Eb H2).
Qed.

Lemma projection_between_caps_witness :
  within (5.0 * 0.70) (5.0 * 1.40)
    (o_projection (project builtin example_home)) = true.
Proof.
  exact (projection_between_caps builtin example_home
           eq_refl eq_refl eq_refl eq_refl).
Defined.

(** X20.  Raising the sportsbook line never lowers the projection (built-in
    constants, finite line and season average, multiplier not a NaN). *)
Theorem projection_nondecreasing_in_line (i : Inputs) (l1 l2 : float) :
  is_finite l1 = true -> is_finite l2 = true ->
  is_finite (season_avg_ast i) = true ->
  is_nan (o_uncapped_multiplier (project builtin i)) = false ->
  (l1 <=? l2) = true ->
  (o_projection (project builtin (with_line_ast l1 i))
     <=? o_projection (project builtin (with_line_ast l2 i))) = true.
Proof.
  intros Fl1 Fl2 Fs Hn Hl.
  assert (Hw : within (MULT_MIN builtin) (MULT_MAX builtin)
                 (o_final_multiplier (project builtin i)) = true)
    by (apply clamp_within; [exact Hn | reflexivity]).
  destruct (within_caps_positive _ Hw) as (mf & ef & Ef).
  change (o_projection (project builtin (with_line_ast l1 i)))
    with (base_assists builtin (with_line_ast l1 i)
          * o_final_multiplier (project builtin i)).
  change (o_projection (project builtin (with_line_ast l2 i)))
    with (base_assists builtin (with_line_ast l2 i)
          * o_final_multiplier (project builtin i)).
  apply (fmul_mono _ _ _ _ _ Ef).
  unfold base_assists. cbn [line_ast season_avg_ast with_line_ast].
  apply (blend_mono (W_BASE_LINE builtin) (W_BASE_SEASON_AVG builtin) _ _ _ _
           _ _ _ _ eq_refl eq_refl eq_refl eq_refl eq_refl eq_refl
           Fl1 Fl2 Fs Fs Hl).
  apply fleb_refl. unfold is_finite in Fs.
  destruct (is_nan (season_avg_ast i)); [discriminate | reflexivity].
Qed.

Lemma projection_nondecreasing_in_line_witness :
  (o_projection (project builtin (with_line_ast 4.5 example_home))
     <=? o_projection (project builtin (with_line_ast 6.5 example_home))) = true.
Proof. apply projection_nondecreasing_in_line; reflexivity. Defined.

(** ** Non-negative inputs: floors of the factors, and the cap holds *)

(** The template at a non-negative observation is at least its value at 0,
    which is [1.0 + (-1) * weight]. *)
Lemma template_floor (base weight x : float) mb eb mw ew :
  Prim2SF base = S754_finite false mb eb ->
  Prim2SF weight = S754_finite false mw ew ->
  (0 <=? x) = true ->
  (1 + -1 * weight <=? 1 + (x - base) / base * weight) = true.
Proof.
  intros Eb Ew Hx. rewrite <- (neg_self_ratio base _ _ Eb).
  exact (relative_deviation_mono _ _ _ _ _ _ _ _ Eb Ew Hx).
Qed.

Lemma guarded_template_floor (base weight x : float) mw ew :
  Prim2SF weight = S754_finite false mw ew ->
  (1 + -1 * weight <=? 1) = true ->
  is_finite base = true -> (0 <=? x) = true ->
  (1 + -1 * weight <=?
   (if (weight =? 0) || (base <=? 0) then 1.0
    else 1.0 + (x - base) / base * weight)) = true.
Proof.
  intros Ew H1 Hfb Hx.
  destruct ((weight =? 0) || (base <=? 0)) eqn:G; [exact H1|].
  apply orb_false_iff in G. destruct G as [_ G].
  destruct (positive_finite_SF _ Hfb G) as (mb & eb & Eb).
  exact (template_floor _ _ _ _ _ _ _ Eb Ew Hx).
Qed.

Lemma nonnegative_inputs_inv (i : Inputs) :
  nonnegative_inputs i = true ->
  finite_inputs i = true /\
  (0 <=? line_ast i) = true /\ (0 <=? season_avg_ast i) = true /\
  (0 <=? game_total_ou i) = true /\ (0 <=? team_total_ou i) = true /\
  (0 <=? opp_ast_allowed i) = true /\ (0 <=? matchup_pace i) = true /\
  (0 <=? recent_avg_ast i) = true /\ (0 <=? season_avg_minutes i) = true /\
  (0 <=? expected_minutes i) = true /\ (0 <=? last5_potential_ast i) = true /\
  (0 <=? last5_conversion i) = true.
Proof.
  unfold nonnegative_inputs. rewrite !andb_true_iff. tauto.
Qed.

Lemma finite_inputs_inv (i : Inputs) :
  finite_inputs i = true ->
  is_finite (line_ast i) = true /\ is_finite (season_avg_ast i) = true /\
  is_finite (game_total_ou i) = true /\ is_finite (team_total_ou i) = true /\
  is_finite (opp_ast_allowed i) = true /\ is_finite (matchup_pace i) = true /\
  is_finite (recent_avg_ast i) = true /\
  is_finite (season_avg_minutes i) = true /\
  is_finite (expected_minutes i) = true /\
  is_finite (last5_potential_ast i) = true /\
  is_finite (last5_conversion i) = true.
Proof.
  unfold finite_inputs. rewrite !andb_true_iff. tauto.
Qed.

(** The product of two finite non-negative doubles is not negative (it may
    be [+infinity]). *)
Lemma fmul_nonneg (x y : float) :
  is_finite x = true -> (0 <=? x) = true ->
  is_finite y = true -> (0 <=? y) = true ->
  (0 <=? x * y) = true.
Proof.
  intros Hfx Hx Hf Hy. rewrite leb_spec, Prim2SF_zero in Hy.
  destruct (is_finite_SF y Hf) as [[s E]|[s [m [e E]]]].
  - rewrite leb_spec in Hx |- *. rewrite mul_spec, E. rewrite Prim2SF_zero in *.
    destruct (is_finite_SF x Hfx) as [[sx Ex]|[sx [mx [ex Ex]]]];
      rewrite Ex in *; [reflexivity|].
    destruct sx; [discriminate | reflexivity].
  - rewrite E in Hy. destruct s; [discriminate|].
    assert (H0 : 0 * y = 0).
    { apply Prim2SF_inj. rewrite mul_spec, E, Prim2SF_zero. reflexivity. }
    rewrite <- H0 at 1. exact (fmul_mono _ _ _ _ _ E Hx).
Qed.

Lemma above_positive_shape (b0 b : float) m e :
  Prim2SF b0 = S754_finite false m e -> (b0 <=? b) = true ->
  (exists m' e', Prim2SF b = S754_finite false m' e') \/
  Prim2SF b = S754_infinity false.
Proof.
  intros E H. rewrite leb_spec, E in H. unfold SFleb in H.
  destruct (Prim2SF b) as [s|[|]| |[|] m' e']; eauto.
  - cbn in H. discriminate H.
  - cbn in H. discriminate H.
  - cbn in H. discriminate H.
  - cbn in H. discriminate H.
Qed.

(** Lower bounds of positive factors multiply. *)
Lemma fmul_lower (a0 b0 a b : float) ma ea mb eb :
  Prim2SF a0 = S754_finite false ma ea ->
  Prim2SF b0 = S754_finite false mb eb ->
  (a0 <=? a) = true -> (b0 <=? b) = true ->
  (a0 * b0 <=? a * b) = true.
Proof.
  intros Ea Eb Ha Hb.
  apply fleb_trans with (a0 * b).
  - exact (fmul_left_mono _ _ _ _ _ Ea Hb).
  - destruct (above_positive_shape _ _ _ _ Eb Hb) as [(m' & e' & E')|E'].
    + exact (fmul_mono _ _ _ _ _ E' Ha).
    + rewrite leb_spec, !mul_spec, Ea, E'.
      destruct (above_positive_shape _ _ _ _ Ea Ha) as [(m' & e' & E2)|E2];
        rewrite E2; reflexivity.
Qed.

Lemma m_homeaway_floor (i : Inputs) :
  (1 - W_HOME_AWAY builtin <=? m_homeaway builtin i) = true.
Proof. unfold m_homeaway. destruct (truthy (is_home i)); reflexivity. Qed.

Lemma m_b2b_floor (i : Inputs) :
  (1 - W_BACK_TO_BACK builtin <=? m_b2b builtin i) = true.
Proof.
  unfold m_b2b. destruct (truthy (is_back_to_back i)); reflexivity.
Qed.

Lemma m_game_total_floor (i : Inputs) :
  (0 <=? game_total_ou i) = true ->
  (1 + -1 * W_GAME_TOTAL builtin <=? m_game_total builtin i) = true.
Proof.
  exact (template_floor (LEAGUE_AVG_GAME_TOTAL builtin) (W_GAME_TOTAL builtin)
           _ _ _ _ _ eq_refl eq_refl).
Qed.

Lemma m_team_total_floor (i : Inputs) :
  (0 <=? team_total_ou i) = true ->
  (1 + -1 * W_TEAM_TOTAL builtin <=? m_team_total builtin i) = true.
Proof.
  exact (template_floor (LEAGUE_AVG_TEAM_TOTAL builtin) (W_TEAM_TOTAL builtin)
           _ _ _ _ _ eq_refl eq_refl).
Qed.

Lemma m_def_ast_floor (i : Inputs) :
  (0 <=? opp_ast_allowed i) = true ->
  (1 + -1 * W_DEF_AST_ALLOWED builtin <=? m_def_ast builtin i) = true.
Proof.
  exact (template_floor (LEAGUE_AVG_AST_ALLOWED builtin)
           (W_DEF_AST_ALLOWED builtin) _ _ _ _ _ eq_refl eq_refl).
Qed.

Lemma m_pace_floor (i : Inputs) :
  (0 <=? matchup_pace i) = true ->
  (1 + -1 * W_PACE builtin <=? m_pace builtin i) = true.
Proof.
  exact (template_floor (LEAGUE_AVG_PACE builtin) (W_PACE builtin)
           _ _ _ _ _ eq_refl eq_refl).
Qed.

Lemma m_recent_floor (i : Inputs) :
  is_finite (season_avg_ast i) = true -> (0 <=? recent_avg_ast i) = true ->
  (1 + -1 * W_RECENT_FORM builtin <=? m_recent builtin i) = true.
Proof.
  exact (guarded_template_floor (season_avg_ast i) (W_RECENT_FORM builtin)
           (recent_avg_ast i) _ _ eq_refl eq_refl).
Qed.

Lemma m_minutes_floor (i : Inputs) :
  is_finite (season_avg_minutes i) = true -> (0 <=? expected_minutes i) = true ->
  (1 + -1 * W_MINUTES_TREND builtin <=? m_minutes builtin i) = true.
Proof.
  exact (guarded_template_floor (season_avg_minutes i) (W_MINUTES_TREND builtin)
           (expected_minutes i) _ _ eq_refl eq_refl).
Qed.

Lemma m_potential_floor (i : Inputs) :
  is_finite (season_avg_ast i) = true ->
  is_finite (last5_potential_ast i) = true ->
  (0 <=? last5_potential_ast i) = true ->
  is_finite (last5_conversion i) = true ->
  (0 <=? last5_conversion i) = true ->
  (1 + -1 * W_POTENTIAL_AST builtin <=? m_potential_assists builtin i) = true.
Proof.
  intros Fs Fp Hp Fk Hk.
  exact (guarded_template_floor (season_avg_ast i) (W_POTENTIAL_AST builtin)
           (last5_potential_ast i * last5_conversion i) _ _ eq_refl eq_refl Fs
           (fmul_nonneg _ _ Fp Hp Fk Hk)).
Qed.

(** X21.  With the built-in constants and non-negative finite inputs, no factor
    falls below 1 minus its weight: 0.97, 0.95, 0.90, 0.88, 0.94, 0.92,
    0.90, 0.97 and 0.86. *)
Theorem factors_floor (i : Inputs) :
  nonnegative_inputs i = true ->
  (0.97 <=? m_homeaway builtin i) = true /\
  (0.95 <=? m_game_total builtin i) = true /\
  (0.90 <=? m_team_total builtin i) = true /\
  (0.88 <=? m_def_ast builtin i) = true /\
  (0.94 <=? m_pace builtin i) = true /\
  (0.92 <=? m_recent builtin i) = true /\
  (0.90 <=? m_minutes builtin i) = true /\
  (0.97 <=? m_b2b builtin i) = true /\
  (0.86 <=? m_potential_assists builtin i) = true.
Proof.
  intros H. destruct (nonnegative_inputs_inv i H)
    as (Hf & _ & _ & Hgt & Htt & Hda & Hpa & Hre & _ & Hmi & Hpo & Hk).
  destruct (finite_inputs_inv i Hf)
    as (_ & Fs & _ & _ & _ & _ & _ & Fm & _ & Fp & Fk).
  repeat split.
  - exact (m_homeaway_floor i).
  - exact (m_game_total_floor i Hgt).
  - exact (m_team_total_floor i Htt).
  - exact (m_def_ast_floor i Hda).
  - exact (m_pace_floor i Hpa).
  - exact (m_recent_floor i Fs Hre).
  - exact (m_minutes_floor i Fm Hmi).
  - exact (m_b2b_floor i).
  - exact (m_potential_floor i Fs Fp Hpo Fk Hk).
Qed.

Lemma factors_floor_witness :
  (0.86 <=? m_potential_assists builtin
              (with_last5_potential_ast 0 example_home)) = true.
Proof.
  destruct (factors_floor (with_last5_potential_ast 0 example_home) eq_refl)
    as (_ & _ & _ & _ & _ & _ & _ & _ & H).
  exact H.
Defined.

(** X22.  With the built-in constants and non-negative finite inputs the uncapped
    multiplier is a number (at least the product of the nine floors), so
    the final multiplier does lie in [[MULT_MIN, MULT_MAX]] and the
    projection is not a NaN. *)
Theorem nonnegative_inputs_capped (i : Inputs) :
  nonnegative_inputs i = true ->
  is_nan (o_uncapped_multiplier (project builtin i)) = false /\
  within (MULT_MIN builtin) (MULT_MAX builtin)
    (o_final_multiplier (project builtin i)) = true /\
  is_nan (o_projection (project builtin i)) = false.
Proof.
  intros H. destruct (nonnegative_inputs_inv i H)
    as (Hf & _ & _ & Hgt & Htt & Hda & Hpa & Hre & _ & Hmi & Hpo & Hk).
  destruct (finite_inputs_inv i Hf)
    as (Fl & Fs & _ & _ & _ & _ & _ & Fm & _ & Fp & Fk).
  assert (Hlow :
    ((1 - W_HOME_AWAY builtin) * (1 + -1 * W_GAME_TOTAL builtin)
       * (1 + -1 * W_TEAM_TOTAL builtin) * (1 + -1 * W_DEF_AST_ALLOWED builtin)
       * (1 + -1 * W_PACE builtin) * (1 + -1 * W_RECENT_FORM builtin)
       * (1 + -1 * W_MINUTES_TREND builtin) * (1 - W_BACK_TO_BACK builtin)
       * (1 + -1 * W_POTENTIAL_AST builtin)
     <=? o_uncapped_multiplier (project builtin i)) = true).
  { cbn [project o_uncapped_multiplier].
    repeat (eapply fmul_lower; [reflexivity | reflexivity | |]).
    - exact (m_homeaway_floor i).
    - exact (m_game_total_floor i Hgt).
    - exact (m_team_total_floor i Htt).
    - exact (m_def_ast_floor i Hda).
    - exact (m_pace_floor i Hpa).
    - exact (m_recent_floor i Fs Hre).
    - exact (m_minutes_floor i Fm Hmi).
    - exact (m_b2b_floor i).
    - exact (m_potential_floor i Fs Fp Hpo Fk Hk). }
  destruct (fleb_not_nan _ _ Hlow) as [_ Hn].
  assert (Hw : within (MULT_MIN builtin) (MULT_MAX builtin)
                 (o_final_multiplier (project builtin i)) = true)
    by (apply clamp_within; [exact Hn | reflexivity]).
  split; [exact Hn|]. split; [exact Hw|].
  destruct (within_caps_positive _ Hw) as (mf & ef & Ef).
  change (o_projection (project builtin i))
    with (base_assists builtin i * o_final_multiplier (project builtin i)).
  rewrite is_nan_SF, mul_spec, Ef.
  destruct (SF64mul_rounds mf ef (valid_of_Prim2SF _ _ Ef)) as (_ & _ & Hnn & _).
  apply Hnn; [|apply Prim2SF_valid].
  rewrite <- is_nan_SF.
  pose proof (blend_builtin_finite _ _ Fl Fs) as Fb. unfold is_finite in Fb.
  fold (base_assists builtin i) in Fb.
  destruct (is_nan (base_assists builtin i)); [discriminate | reflexivity].
Qed.

Lemma nonnegative_inputs_capped_witness :
  within (MULT_MIN builtin) (MULT_MAX builtin)
    (o_final_multiplier
       (project builtin (with_expected_minutes 1e308
                           (with_recent_avg_ast 0 extreme_finite)))) = true.
Proof.
  exact (proj1 (proj2 (nonnegative_inputs_capped
                         (with_expected_minutes 1e308
                            (with_recent_avg_ast 0 extreme_finite)) eq_refl))).
Defined.

(** ** The player name read by [main] *)

Section PlayerName.
Import List.
Local Open Scope list_scope.

(** X23.  The name [main] keeps is the line that was typed, without its newline:
    whether [fgets] stored the line with its newline, or without one (end of
    input, or a line longer than the buffer). *)
Theorem name_is_line_without_newline (line rest : list Ascii.ascii) :
  lacks NUL line = true -> lacks newline line = true ->
  cstring (strip_newline (line ++ newline :: NUL :: rest)) = line /\
  cstring (strip_newline (line ++ NUL :: rest)) = line.
Proof.
  unfold lacks. induction line as [|ch line IH]; cbn [forallb app].
  - intros _ _. split; reflexivity.
  - rewrite !andb_true_iff, !negb_true_iff. intros [H0 HN] [H1 HL].
    destruct (IH HN HL) as [IH1 IH2].
    cbn [strip_newline]. rewrite H0, H1. cbn [cstring]. rewrite H0.
    split; f_equal; assumption.
Qed.

Lemma name_is_line_without_newline_witness :
  cstring (strip_newline
             (list_ascii_of_string "Chris Paul"
                ++ newline :: NUL :: NUL :: NUL :: nil))
  = list_ascii_of_string "Chris Paul".
Proof.
  exact (proj1 (name_is_line_without_newline
                  (list_ascii_of_string "Chris Paul") (NUL :: NUL :: nil)
                  eq_refl eq_refl)).
Defined.

(** X24.  The loop never changes the size of the buffer, leaves no newline in the
    name, and writes nothing when the name has no newline. *)
Theorem strip_newline_buffer (buf : list Ascii.ascii) :
  length (strip_newline buf) = length buf /\
  lacks newline (cstring (strip_newline buf)) = true /\
  (lacks newline (cstring buf) = true -> strip_newline buf = buf).
Proof.
  unfold lacks. induction buf as [|ch buf (IH1 & IH2 & IH3)].
  - repeat split.
  - cbn [strip_newline].
    destruct (Ascii.eqb ch NUL) eqn:H0.
    + cbn [cstring]. rewrite H0. repeat split.
    + destruct (Ascii.eqb ch newline) eqn:H1.
      * cbn [cstring length forallb]. rewrite H0, Ascii.eqb_refl.
        cbn [forallb]. rewrite H1. repeat split. discriminate.
      * cbn [cstring length forallb]. rewrite H0. cbn [forallb].
        rewrite H1, IH1, IH2. repeat split.
        cbn [negb andb]. intros H. rewrite (IH3 H). reflexivity.
Qed.

Lemma strip_newline_buffer_witness :
  strip_newline (list_ascii_of_string "Chris Paul" ++ NUL :: nil)
  = list_ascii_of_string "Chris Paul" ++ NUL :: nil.
Proof.
  exact (proj2 (proj2 (strip_newline_buffer
                         (list_ascii_of_string "Chris Paul" ++ NUL :: nil)))
           eq_refl).
Defined.

End PlayerName.
